(** * Arduino_Course: the RC car sketches, the parking buzzer and the LED/LCD toggle

    A shallow embedding of the sketches of the repository.  Every sketch is a
    [setup]/[loop] pair over the Arduino core; the core itself (digitalWrite,
    analogWrite, delay, pulseIn, Serial, the LCD driver) is not part of the
    repository and is modelled by the small board model of [Arduino] below:
    a store of what each pin is driven with, and a chronological log of the
    output calls a sketch makes. *)

From Stdlib Require Import ZArith QArith Qabs Lqa List Ascii String Lia.
From stdpp Require Import base gmap list.

Local Open Scope Z_scope.

(** ** The board *)

Module Arduino.

(** [HIGH]/[LOW] and [INPUT]/[OUTPUT] of the Arduino core. *)
Definition HIGH : Z := 1.
Definition LOW : Z := 0.

Inductive pin_mode := INPUT | OUTPUT.

(** What an output pin is driven with: a constant level (digitalWrite) or
    a PWM duty cycle out of 255 (analogWrite). *)
Inductive drive :=
| Level (v : Z)
| Duty (d : Z).

(** Output calls, in the order the sketch makes them, with the arguments
    the called function receives. *)
Inductive event :=
| EPinMode (pin : Z) (m : pin_mode)
| EDigitalWrite (pin val : Z)
| EAnalogWrite (pin val : Z)
| EDelay (ms : Z)
| EDelayMicroseconds (us : Z)
| ESerialBegin (baud : Z)
| ESerialPrintln (v : Z)
| ELcdBegin (cols rows : Z)
| ELcdSetBacklight (v : Z)
| ELcdPrint (s : string)
| ELcdClear.

Record board := Board { pins : gmap Z drive; log : list event }.

(** After reset nothing has been written: every pin is low, and stays so
    when [setup] makes it an output. *)
Definition power_on : board := Board ∅ [].

(** A sketch statement is a board transformer; [;;;] is C's [;]. *)
Definition cmd := board -> board.

Definition seq (c1 c2 : cmd) : cmd := fun b => c2 (c1 b).

Definition emit (e : event) : cmd :=
  fun b => Board (pins b) (log b ++ [e]).

Definition digitalWrite (pin val : Z) : cmd :=
  fun b => Board (<[pin := Level val]> (pins b)) (log b ++ [EDigitalWrite pin val]).

Definition analogWrite (pin val : Z) : cmd :=
  fun b => Board (<[pin := Duty val]> (pins b)) (log b ++ [EAnalogWrite pin val]).

Definition pinMode (pin : Z) (m : pin_mode) : cmd := emit (EPinMode pin m).
Definition delay (ms : Z) : cmd := emit (EDelay ms).

(** [delayMicroseconds(unsigned int us)]: whatever integer a sketch passes
    is narrowed to the parameter's type, the 16-bit [unsigned int] of the
    AVR boards the sketches are written for; the log holds the value the
    function receives. *)
Definition to_unsigned_int (v : Z) : Z := v mod 65536.

Definition delayMicroseconds (us : Z) : cmd :=
  emit (EDelayMicroseconds (to_unsigned_int us)).

Definition Serial_begin (baud : Z) : cmd := emit (ESerialBegin baud).
Definition Serial_println (v : Z) : cmd := emit (ESerialPrintln v).
Definition lcd_begin (cols rows : Z) : cmd := emit (ELcdBegin cols rows).
Definition lcd_setBacklight (v : Z) : cmd := emit (ELcdSetBacklight v).
Definition lcd_print (s : string) : cmd := emit (ELcdPrint s).
Definition lcd_clear : cmd := emit ELcdClear.

(** [for (int i = lo; i <= hi; i++) body(i);] *)
Definition for_range (lo hi : Z) (body : Z -> cmd) : cmd :=
  fun b => fold_left (fun acc i => body i acc) (seqZ lo (hi - lo + 1)) b.

(** [digitalRead] yields [HIGH] or [LOW]; [env] is the level present on
    the input pins during the current loop iteration. *)
Definition digitalRead (env : Z -> bool) (pin : Z) : Z :=
  if env pin then HIGH else LOW.

(** The serial receive buffer: [Serial.available()] is the number of
    bytes waiting, [Serial.read()] takes the first one (-1 when there is
    none). *)
Definition Serial_available (rx : list Z) : Z := Z.of_nat (length rx).

Definition Serial_read (rx : list Z) : Z * list Z :=
  match rx with
  | [] => (-1, [])
  | c :: rest => (c, rest)
  end.

(** Assignment of an [int] to a [char] variable: wrap to 8 bits, signed. *)
Definition to_char (v : Z) : Z := (v + 128) mod 256 - 128.

(** A character literal as the integer the compiler makes of it. *)
Definition chr (c : ascii) : Z := Z.of_N (N_of_ascii c).

(** The empty statement. *)
Definition skip : cmd := fun b => b.

(** *** Reading the outputs back *)

Definition pin_drive (b : board) (pin : Z) : drive :=
  default (Level LOW) (pins b !! pin).

(** A direction input of the motor driver is asserted when its pin is
    driven with a non-zero value. *)
Definition asserted (d : drive) : bool :=
  match d with
  | Level v => negb (v =? 0)
  | Duty d => negb (d =? 0)
  end.

(** The speed magnitude seen on an enable input: the PWM duty, a constant
    low level being duty 0 and a constant high level duty 255. *)
Definition duty (d : drive) : Z :=
  match d with
  | Level v => if v =? 0 then 0 else 255
  | Duty d => d
  end.

(** *** Long and float arithmetic *)

(** C's [/] on [long]: truncation toward zero. *)
Definition ldiv (a b : Z) : Z := Z.quot a b.

(** Conversion of a floating-point value to [long]: the fraction is
    dropped (truncation toward zero). *)
Definition to_long (q : Q) : Z := Z.quot (Qnum q) (Zpos (Qden q)).

(** The literal [0.0343]. *)
Definition speed_of_sound_cm_per_us : Q := 343 # 10000.

(** Floating-point results are rationals; the rounding a product goes
    through is a parameter [fl] of the code that multiplies.  [exact] is
    the rounding that changes nothing, [within tol fl q] says that [fl]
    moves [q] by at most [tol]. *)
Definition exact : Q -> Q := fun q => q.

Definition within (tol : Q) (fl : Q -> Q) (q : Q) : Prop :=
  (Qabs (fl q - q) <= tol)%Q.

End Arduino.

Notation "c1 ;;; c2" := (Arduino.seq c1 c2) (at level 61, left associativity).

(** ** Car Direction Test (RC CAR CODES.c, lines 3-69) *)

Module CarDirectionTest.
Import Arduino.

Definition speedL : Z := 10.
Definition IN1 : Z := 9.
Definition IN2 : Z := 8.
Definition IN3 : Z := 7.
Definition IN4 : Z := 6.
Definition speedR : Z := 5.

Definition setup : cmd :=
  Serial_begin 9600 ;;;
  for_range 5 10 (fun i => pinMode i OUTPUT).

Definition forword : cmd :=
  digitalWrite IN1 HIGH ;;;
  digitalWrite IN2 LOW ;;;
  digitalWrite IN3 HIGH ;;;
  digitalWrite IN4 LOW ;;;
  analogWrite speedL 150 ;;;
  analogWrite speedR 150.

Definition backword : cmd :=
  digitalWrite IN1 LOW ;;;
  digitalWrite IN2 HIGH ;;;
  digitalWrite IN3 LOW ;;;
  digitalWrite IN4 HIGH ;;;
  analogWrite speedL 150 ;;;
  analogWrite speedR 150.

Definition left : cmd :=
  digitalWrite IN1 LOW ;;;
  digitalWrite IN2 LOW ;;;
  digitalWrite IN3 HIGH ;;;
  digitalWrite IN4 LOW ;;;
  analogWrite speedL 0 ;;;
  analogWrite speedR 150.

Definition right : cmd :=
  digitalWrite IN1 HIGH ;;;
  digitalWrite IN2 LOW ;;;
  digitalWrite IN3 LOW ;;;
  digitalWrite IN4 LOW ;;;
  analogWrite speedL 150 ;;;
  analogWrite speedR 0.

Definition stopp : cmd :=
  digitalWrite IN1 LOW ;;;
  digitalWrite IN2 LOW ;;;
  digitalWrite IN3 LOW ;;;
  digitalWrite IN4 LOW ;;;
  analogWrite speedL 0 ;;;
  analogWrite speedR 0.

Definition loop : cmd :=
  forword ;;; delay 2000 ;;;
  backword ;;; delay 2000 ;;;
  right ;;; delay 2000 ;;;
  left ;;; delay 2000 ;;;
  stopp ;;; delay 2000.

End CarDirectionTest.

(** ** Controlled robot by Bluetooth (RC CAR CODES.c, lines 72-143) *)

Module BluetoothControlled.
Import Arduino.

Definition speedL : Z := 10.
Definition IN1 : Z := 9.
Definition IN2 : Z := 8.
Definition IN3 : Z := 7.
Definition IN4 : Z := 6.
Definition speedR : Z := 5.

(** The sketch's global [char Reading], the board, and the bytes waiting
    in the serial receive buffer. *)
Record state := State { hw : board; rx : list Z; Reading : Z }.

Definition setup : cmd :=
  Serial_begin 9600 ;;;
  for_range 5 10 (fun i => pinMode i OUTPUT).

Definition forword : cmd :=
  digitalWrite IN1 HIGH ;;;
  digitalWrite IN2 LOW ;;;
  digitalWrite IN3 HIGH ;;;
  digitalWrite IN4 LOW ;;;
  analogWrite speedL 150 ;;;
  analogWrite speedR 150.

Definition backword : cmd :=
  digitalWrite IN1 LOW ;;;
  digitalWrite IN2 HIGH ;;;
  digitalWrite IN3 LOW ;;;
  digitalWrite IN4 HIGH ;;;
  analogWrite speedL 150 ;;;
  analogWrite speedR 150.

Definition left : cmd :=
  digitalWrite IN1 LOW ;;;
  digitalWrite IN2 LOW ;;;
  digitalWrite IN3 HIGH ;;;
  digitalWrite IN4 LOW ;;;
  analogWrite speedL 0 ;;;
  analogWrite speedR 150.

Definition right : cmd :=
  digitalWrite IN1 HIGH ;;;
  digitalWrite IN2 LOW ;;;
  digitalWrite IN3 LOW ;;;
  digitalWrite IN4 LOW ;;;
  analogWrite speedL 150 ;;;
  analogWrite speedR 0.

Definition stopp : cmd :=
  digitalWrite IN1 LOW ;;;
  digitalWrite IN2 LOW ;;;
  digitalWrite IN3 LOW ;;;
  digitalWrite IN4 LOW ;;;
  analogWrite speedL 0 ;;;
  analogWrite speedR 0.

(** [switch(Reading)]: every case ends in [break], there is no
    [default]. *)
Definition switch_Reading (r : Z) : cmd :=
  if r =? chr "F" then forword
  else if r =? chr "B" then backword
  else if r =? chr "R" then right
  else if r =? chr "L" then left
  else if r =? chr "S" then stopp
  else skip.

Definition loop (s : state) : state :=
  if Serial_available (rx s) >? 0 then
    let (c, rest) := Serial_read (rx s) in
    let r := to_char c in
    State (switch_Reading r (hw s)) rest r
  else s.

End BluetoothControlled.

(** ** Line Follower (RC CAR CODES.c, lines 146-221) *)

Module LineFollower.
Import Arduino.

Definition speedL : Z := 10.
Definition IN1 : Z := 9.
Definition IN2 : Z := 8.
Definition IN3 : Z := 7.
Definition IN4 : Z := 6.
Definition speedR : Z := 5.
Definition sensorL : Z := 4.
Definition sensorR : Z := 3.

(** The globals [sl] and [sr], and the board. *)
Record state := State { hw : board; sl : Z; sr : Z }.

Definition setup : cmd :=
  for_range 5 10 (fun i => pinMode i OUTPUT) ;;;
  pinMode sensorR INPUT ;;;
  pinMode sensorL INPUT.

Definition forword : cmd :=
  digitalWrite IN1 HIGH ;;;
  digitalWrite IN2 LOW ;;;
  digitalWrite IN3 HIGH ;;;
  digitalWrite IN4 LOW ;;;
  analogWrite speedL 150 ;;;
  analogWrite speedR 150.

Definition backword : cmd :=
  digitalWrite IN1 LOW ;;;
  digitalWrite IN2 HIGH ;;;
  digitalWrite IN3 LOW ;;;
  digitalWrite IN4 HIGH ;;;
  analogWrite speedL 150 ;;;
  analogWrite speedR 150.

Definition left : cmd :=
  digitalWrite IN1 LOW ;;;
  digitalWrite IN2 LOW ;;;
  digitalWrite IN3 HIGH ;;;
  digitalWrite IN4 LOW ;;;
  analogWrite speedL 0 ;;;
  analogWrite speedR 150.

Definition right : cmd :=
  digitalWrite IN1 HIGH ;;;
  digitalWrite IN2 LOW ;;;
  digitalWrite IN3 LOW ;;;
  digitalWrite IN4 LOW ;;;
  analogWrite speedL 150 ;;;
  analogWrite speedR 0.

Definition stopp : cmd :=
  digitalWrite IN1 LOW ;;;
  digitalWrite IN2 LOW ;;;
  digitalWrite IN3 LOW ;;;
  digitalWrite IN4 LOW ;;;
  analogWrite speedL 0 ;;;
  analogWrite speedR 0.

Definition loop (env : Z -> bool) (s : state) : state :=
  let sl' := digitalRead env sensorL in
  let sr' := digitalRead env sensorR in
  let act :=
    if (sl' =? 0) && (sr' =? 0) then forword
    else if (sl' =? 0) && (sr' =? 1) then right
    else if (sl' =? 1) && (sr' =? 0) then left
    else if (sl' =? 1) && (sr' =? 1) then stopp
    else skip in
  State (act (hw s)) sl' sr'.

End LineFollower.

(** ** Obstacle Avoiding (RC CAR CODES.c, lines 223-299) *)

Module ObstacleAvoiding.
Import Arduino.

Definition speedL : Z := 10.
Definition IN1 : Z := 9.
Definition IN2 : Z := 8.
Definition IN3 : Z := 7.
Definition IN4 : Z := 6.
Definition speedR : Z := 5.
Definition trig : Z := 3.
Definition echo : Z := 4.

(** The globals [long duration, distance], and the board. *)
Record state := State { hw : board; duration : Z; distance : Z }.

Definition on_hw (c : cmd) (s : state) : state :=
  State (c (hw s)) (duration s) (distance s).

Definition setup : cmd :=
  for_range 5 11 (fun i => pinMode i OUTPUT) ;;;
  pinMode echo INPUT.

Definition forword : cmd :=
  digitalWrite IN1 HIGH ;;;
  digitalWrite IN2 LOW ;;;
  digitalWrite IN3 HIGH ;;;
  digitalWrite IN4 LOW ;;;
  analogWrite speedL 150 ;;;
  analogWrite speedR 150.

Definition backword : cmd :=
  digitalWrite IN1 LOW ;;;
  digitalWrite IN2 HIGH ;;;
  digitalWrite IN3 LOW ;;;
  digitalWrite IN4 HIGH ;;;
  analogWrite speedL 150 ;;;
  analogWrite speedR 150.

Definition left : cmd :=
  digitalWrite IN1 LOW ;;;
  digitalWrite IN2 LOW ;;;
  digitalWrite IN3 HIGH ;;;
  digitalWrite IN4 LOW ;;;
  analogWrite speedL 0 ;;;
  analogWrite speedR 150.

Definition right : cmd :=
  digitalWrite IN1 HIGH ;;;
  digitalWrite IN2 LOW ;;;
  digitalWrite IN3 LOW ;;;
  digitalWrite IN4 LOW ;;;
  analogWrite speedL 150 ;;;
  analogWrite speedR 0.

(** This sketch's [stopp] writes the two enable pins only. *)
Definition stopp : cmd :=
  digitalWrite speedL LOW ;;;
  digitalWrite speedR LOW.

Section Ranging.
(** The rounding of the float product. *)
Variable fl : Q -> Q.

(** [pulse] is what [pulseIn(echo, HIGH)] returns in this call. *)
Definition Ultrasonic (pulse : Z) (s : state) : state :=
  let b :=
    (digitalWrite trig LOW ;;;
     delayMicroseconds 2 ;;;
     digitalWrite trig HIGH ;;;
     delayMicroseconds 10 ;;;
     digitalWrite trig LOW) (hw s) in
  let duration' := pulse in
  let distance' :=
    to_long (fl (inject_Z (ldiv duration' 2) * speed_of_sound_cm_per_us)) in
  State b duration' distance'.

Definition loop (pulse : Z) (s : state) : state :=
  let s1 := Ultrasonic pulse s in
  if distance s1 <? 20 then
    on_hw (stopp ;;; delay 250 ;;;
           backword ;;; delay 500 ;;;
           right ;;; delay 1000) s1
  else
    on_hw forword s1.
End Ranging.

End ObstacleAvoiding.

(** ** Parking buzzer (Using ultrasonic sensor and buzzer ..., Code.c) *)

Module ParkingBuzzer.
Import Arduino.

Definition ULtrsonic : Z := 6.
Definition Buzzer : Z := 2.

(** The globals [long duration, distance], and the board. *)
Record state := State { hw : board; duration : Z; distance : Z }.

Definition setup : cmd :=
  pinMode Buzzer OUTPUT ;;;
  Serial_begin 9600.

Section Ranging.
Variable fl : Q -> Q.

(** [pulse] is what [pulseIn(ULtrsonic, 1)] returns in this iteration. *)
Definition loop (pulse : Z) (s : state) : state :=
  let b1 :=
    (pinMode ULtrsonic OUTPUT ;;;
     digitalWrite ULtrsonic LOW ;;;
     delayMicroseconds 2 ;;;
     digitalWrite ULtrsonic HIGH ;;;
     delayMicroseconds 10 ;;;
     digitalWrite ULtrsonic LOW ;;;
     pinMode ULtrsonic INPUT) (hw s) in
  let duration' := pulse in
  let distance' :=
    to_long (fl (inject_Z (ldiv duration' 2) * speed_of_sound_cm_per_us)) in
  let b2 :=
    (Serial_println distance' ;;;
     delay 5 ;;;
     digitalWrite Buzzer 1 ;;;
     delayMicroseconds (ldiv duration' 2) ;;;
     digitalWrite Buzzer 0 ;;;
     delayMicroseconds (ldiv duration' 2)) b1 in
  State b2 duration' distance'.
End Ranging.

End ParkingBuzzer.

(** ** LED/LCD toggle (Using lcd , pushbutton and 2 leds ..., Code.c)

    Line 8 of the file has the declarations [int button_Reading; int counter = 0;]
    on the line of [#define Green_led 4]; they are taken as the declarations
    they are meant to be. *)

Module LedLcd.
Import Arduino.

Definition button : Z := 2.
Definition Red_led : Z := 3.
Definition Green_led : Z := 4.

(** The globals [button_Reading] and [counter], and the board. *)
Record state := State { hw : board; button_Reading : Z; counter : Z }.

Definition setup : cmd :=
  pinMode button INPUT ;;;
  pinMode Red_led OUTPUT ;;;
  pinMode Green_led OUTPUT ;;;
  lcd_begin 16 2 ;;;
  lcd_setBacklight 1.

(** The sketch after [setup]; [counter] is initialised to 0. *)
Definition initial : state := State (setup power_on) 0 0.

Definition loop (env : Z -> bool) (s : state) : state :=
  let r := digitalRead env button in
  if (r =? 1) && (counter s =? 0) then
    State ((digitalWrite Red_led 1 ;;;
            lcd_print "Red led " ;;;
            digitalWrite Green_led 0 ;;;
            delay 1000) (hw s))
          r (counter s + 1)
  else if (r =? 1) && (counter s =? 1) then
    State ((digitalWrite Red_led 0 ;;;
            digitalWrite Green_led 1 ;;;
            lcd_print "Green led " ;;;
            delay 1000) (hw s))
          r 0
  else
    State ((digitalWrite Red_led 0 ;;;
            digitalWrite Green_led 0 ;;;
            lcd_clear) (hw s))
          r (counter s).

End LedLcd.

(** ** The actuator contract

    The vocabulary of the drive contract: the five movement commands, the
    motor output read back from the six driver pins, and the command table.
    The six pin numbers are the same in the four car sketches. *)

Module Contract.
Import Arduino.

Inductive MovementCommand := Forward | Backward | Left | Right | Stop.

(** Direction pairs are (forward, backward). *)
Record MotorOutput := Motor {
  left_dir : bool * bool;
  right_dir : bool * bool;
  left_speed : Z;
  right_speed : Z
}.

Definition motor_output (b : board) : MotorOutput :=
  Motor (asserted (pin_drive b CarDirectionTest.IN1),
         asserted (pin_drive b CarDirectionTest.IN2))
        (asserted (pin_drive b CarDirectionTest.IN3),
         asserted (pin_drive b CarDirectionTest.IN4))
        (duty (pin_drive b CarDirectionTest.speedL))
        (duty (pin_drive b CarDirectionTest.speedR)).

(** The speed the sketches pass to [analogWrite]. *)
Definition configured : Z := 150.

Definition table (c : MovementCommand) : MotorOutput :=
  match c with
  | Forward => Motor (true, false) (true, false) configured configured
  | Backward => Motor (false, true) (false, true) configured configured
  | Left => Motor (false, false) (true, false) 0 configured
  | Right => Motor (true, false) (false, false) configured 0
  | Stop => Motor (false, false) (false, false) 0 0
  end.

Inductive sketch :=
| SkCarDirectionTest
| SkBluetoothControlled
| SkLineFollower
| SkObstacleAvoiding.

(** The function a sketch has for a command. *)
Definition actuator (k : sketch) (c : MovementCommand) : cmd :=
  match k, c with
  | SkCarDirectionTest, Forward => CarDirectionTest.forword
  | SkCarDirectionTest, Backward => CarDirectionTest.backword
  | SkCarDirectionTest, Left => CarDirectionTest.left
  | SkCarDirectionTest, Right => CarDirectionTest.right
  | SkCarDirectionTest, Stop => CarDirectionTest.stopp
  | SkBluetoothControlled, Forward => BluetoothControlled.forword
  | SkBluetoothControlled, Backward => BluetoothControlled.backword
  | SkBluetoothControlled, Left => BluetoothControlled.left
  | SkBluetoothControlled, Right => BluetoothControlled.right
  | SkBluetoothControlled, Stop => BluetoothControlled.stopp
  | SkLineFollower, Forward => LineFollower.forword
  | SkLineFollower, Backward => LineFollower.backword
  | SkLineFollower, Left => LineFollower.left
  | SkLineFollower, Right => LineFollower.right
  | SkLineFollower, Stop => LineFollower.stopp
  | SkObstacleAvoiding, Forward => ObstacleAvoiding.forword
  | SkObstacleAvoiding, Backward => ObstacleAvoiding.backword
  | SkObstacleAvoiding, Left => ObstacleAvoiding.left
  | SkObstacleAvoiding, Right => ObstacleAvoiding.right
  | SkObstacleAvoiding, Stop => ObstacleAvoiding.stopp
  end.

(** The [setup] of a sketch. *)
Definition setup_of (k : sketch) : cmd :=
  match k with
  | SkCarDirectionTest => CarDirectionTest.setup
  | SkBluetoothControlled => BluetoothControlled.setup
  | SkLineFollower => LineFollower.setup
  | SkObstacleAvoiding => ObstacleAvoiding.setup
  end.

(** Any sequence of actuator calls of one sketch. *)
Definition run (k : sketch) (cs : list MovementCommand) (b : board) : board :=
  fold_left (fun acc c => actuator k c acc) cs b.

(** Forward and backward of one channel are not both asserted. *)
Definition no_conflict (m : MotorOutput) : Prop :=
  left_dir m <> (true, true) /\ right_dir m <> (true, true).

End Contract.

(** ** States and observations used in the statements below *)

Import Arduino Contract.

(** The Bluetooth sketch after [setup], with 'F', 'Z', 'S' received. *)
Definition remote_FZS : BluetoothControlled.state :=
  BluetoothControlled.State (BluetoothControlled.setup power_on)
                            [chr "F"; chr "Z"; chr "S"] 0.

(** The Obstacle Avoiding sketch after [setup]. *)
Definition obstacle_start : ObstacleAvoiding.state :=
  ObstacleAvoiding.State (ObstacleAvoiding.setup power_on) 0 0.

(** The parking sketch after [setup]. *)
Definition parking_start : ParkingBuzzer.state :=
  ParkingBuzzer.State (ParkingBuzzer.setup power_on) 0 0.

(** The product the two ranging expressions truncate, before rounding:
    the integer half of the echo time, times 0.0343. *)
Definition half_product (pulse : Z) : Q :=
  inject_Z (ldiv pulse 2) * speed_of_sound_cm_per_us.

(** Input pins all high (button pressed) and all low (button released). *)
Definition pressed : Z -> bool := fun _ => true.
Definition released : Z -> bool := fun _ => false.


(** ** Runs and timelines *)

(** What an output call does to the pins when a log is replayed. *)
Definition replay_event (e : event) : cmd :=
  match e with
  | EDigitalWrite pin v => digitalWrite pin v
  | EAnalogWrite pin v => analogWrite pin v
  | _ => skip
  end.

(** The motor output held during each [delay] of a log, with the length of
    the hold in milliseconds; [b] is the board before the first event. *)
Fixpoint timeline (es : list event) (b : board) : list (MotorOutput * Z) :=
  match es with
  | [] => []
  | EDelay ms :: rest => (motor_output b, ms) :: timeline rest b
  | e :: rest => timeline rest (replay_event e b)
  end.

(** The calls a statement appends to the log of [b]. *)
Definition added (c : cmd) (b : board) : list event :=
  drop (length (log b)) (log (c b)).

Definition is_pin_mode (e : event) : bool :=
  match e with
  | EPinMode _ _ => true
  | _ => false
  end.

(** The command a received byte stands for in the Bluetooth sketch. *)
Definition command_of_byte (c : Z) : option MovementCommand :=
  if c =? chr "F" then Some Forward
  else if c =? chr "B" then Some Backward
  else if c =? chr "R" then Some Right
  else if c =? chr "L" then Some Left
  else if c =? chr "S" then Some Stop
  else None.

(** The Obstacle Avoiding sketch run from [setup] through one loop
    iteration per [pulseIn] result. *)
Definition obstacle_run (fl : Q -> Q) (pulses : list Z) : ObstacleAvoiding.state :=
  fold_left (fun s p => ObstacleAvoiding.loop fl p s) pulses obstacle_start.

(** The LED/LCD sketch run through one loop iteration per input sample. *)
Definition ledlcd_run (envs : list (Z -> bool)) (s : LedLcd.state) : LedLcd.state :=
  fold_left (fun s env => LedLcd.loop env s) envs s.

(** The number of samples in which the button reads pressed. *)
Definition presses (envs : list (Z -> bool)) : Z :=
  Z.of_nat (length (List.filter (fun env => env LedLcd.button) envs)).


(** A rounding that keeps the order of the values it rounds. *)
Definition monotone (fl : Q -> Q) : Prop :=
  forall a b : Q, (a <= b)%Q -> (fl a <= fl b)%Q.

(** The actuator functions and pin names of the four car sketches, for
    unfolding. *)
Create HintDb car discriminated.

#[global] Hint Unfold
  CarDirectionTest.forword CarDirectionTest.backword CarDirectionTest.left
  CarDirectionTest.right CarDirectionTest.stopp
  CarDirectionTest.IN1 CarDirectionTest.IN2 CarDirectionTest.IN3
  CarDirectionTest.IN4 CarDirectionTest.speedL CarDirectionTest.speedR : car.

#[global] Hint Unfold
  BluetoothControlled.forword BluetoothControlled.backword BluetoothControlled.left
  BluetoothControlled.right BluetoothControlled.stopp
  BluetoothControlled.IN1 BluetoothControlled.IN2 BluetoothControlled.IN3
  BluetoothControlled.IN4 BluetoothControlled.speedL BluetoothControlled.speedR : car.

#[global] Hint Unfold
  LineFollower.forword LineFollower.backword LineFollower.left
  LineFollower.right LineFollower.stopp
  LineFollower.IN1 LineFollower.IN2 LineFollower.IN3
  LineFollower.IN4 LineFollower.speedL LineFollower.speedR : car.

#[global] Hint Unfold
  ObstacleAvoiding.forword ObstacleAvoiding.backword ObstacleAvoiding.left
  ObstacleAvoiding.right ObstacleAvoiding.stopp
  ObstacleAvoiding.IN1 ObstacleAvoiding.IN2 ObstacleAvoiding.IN3
  ObstacleAvoiding.IN4 ObstacleAvoiding.speedL ObstacleAvoiding.speedR : car.

(** * Properties *)

(** ** Reading pins after writes *)

Lemma pin_drive_digitalWrite_eq b p v :
  pin_drive (digitalWrite p v b) p = Level v.
Proof. unfold pin_drive, digitalWrite; cbn. by rewrite lookup_insert_eq. Qed.

Lemma pin_drive_digitalWrite_ne b p q v :
  p <> q -> pin_drive (digitalWrite p v b) q = pin_drive b q.
Proof. intros H. unfold pin_drive, digitalWrite; cbn. by rewrite lookup_insert_ne. Qed.

Lemma pin_drive_analogWrite_eq b p v :
  pin_drive (analogWrite p v b) p = Duty v.
Proof. unfold pin_drive, analogWrite; cbn. by rewrite lookup_insert_eq. Qed.

Lemma pin_drive_analogWrite_ne b p q v :
  p <> q -> pin_drive (analogWrite p v b) q = pin_drive b q.
Proof. intros H. unfold pin_drive, analogWrite; cbn. by rewrite lookup_insert_ne. Qed.

Lemma pin_drive_emit b e q : pin_drive (emit e b) q = pin_drive b q.
Proof. reflexivity. Qed.

Lemma seq_apply (c1 c2 : cmd) b : (c1 ;;; c2) b = c2 (c1 b).
Proof. reflexivity. Qed.

(** Reads every pin of a sequence of writes to literal pins. *)
Ltac read_pins :=
  repeat rewrite seq_apply;
  repeat first
    [ rewrite pin_drive_digitalWrite_eq
    | rewrite pin_drive_analogWrite_eq
    | rewrite pin_drive_digitalWrite_ne by (intro; discriminate)
    | rewrite pin_drive_analogWrite_ne by (intro; discriminate)
    | rewrite pin_drive_emit ].

Lemma full_write_output k c b :
  (k, c) <> (SkObstacleAvoiding, Stop) ->
  motor_output (actuator k c b) = table c.
Proof.
  intros Hkc.
  destruct k, c; try (exfalso; apply Hkc; reflexivity);
    unfold motor_output, actuator; autounfold with car;
    read_pins; reflexivity.
Qed.

Lemma obstacle_stopp_output b :
  motor_output (ObstacleAvoiding.stopp b)
  = Motor (left_dir (motor_output b)) (right_dir (motor_output b)) 0 0.
Proof.
  unfold motor_output, ObstacleAvoiding.stopp. autounfold with car.
  read_pins. reflexivity.
Qed.

Lemma table_no_conflict c : no_conflict (table c).
Proof. destruct c; split; discriminate. Qed.

Lemma sketch_command_dec k c :
  {(k, c) = (SkObstacleAvoiding, Stop)} + {(k, c) <> (SkObstacleAvoiding, Stop)}.
Proof. destruct k, c; (left; reflexivity) || (right; discriminate). Qed.

Lemma actuator_preserves_no_conflict k c b :
  no_conflict (motor_output b) -> no_conflict (motor_output (actuator k c b)).
Proof.
  intros Hb.
  destruct (sketch_command_dec k c) as [E | N].
  - injection E as -> ->. cbn [actuator].
    rewrite obstacle_stopp_output. exact Hb.
  - rewrite full_write_output by exact N. apply table_no_conflict.
Qed.

Lemma setup_no_conflict k : no_conflict (motor_output (setup_of k power_on)).
Proof. destruct k; split; vm_compute; discriminate. Qed.

(** ** The drive contract *)

(** C1 (as amended).  In the Car Direction Test, Bluetooth and Line Follower
    sketches all five functions produce the row of the table, and so do
    forword, backword, left and right of the Obstacle Avoiding sketch, from
    every prior board state, with 150 as the configured speed.  The
    Obstacle Avoiding stopp drives both speeds to 0 and leaves the four
    direction signals as they were. *)
Theorem C1_actuator_outputs :
  forall k c b,
    match k, c with
    | SkObstacleAvoiding, Stop =>
        left_dir (motor_output (actuator k c b)) = left_dir (motor_output b) /\
        right_dir (motor_output (actuator k c b)) = right_dir (motor_output b) /\
        left_speed (motor_output (actuator k c b)) = 0 /\
        right_speed (motor_output (actuator k c b)) = 0
    | _, _ => motor_output (actuator k c b) = table c
    end.
Proof.
  intros k c b.
  destruct (sketch_command_dec k c) as [E | N].
  - injection E as -> ->. cbn [actuator].
    rewrite obstacle_stopp_output. cbn. auto.
  - pose proof (full_write_output k c b N) as H.
    destruct k, c; try exact H. exfalso; apply N; reflexivity.
Qed.

(** C1 (as stated) fails: in the Obstacle Avoiding sketch, stopp called
    after forword leaves both channels' forward signals asserted, where the
    table's Stop row has (0,0) and (0,0). *)
Lemma C1_obstacle_stopp_not_table_row :
  motor_output
    (ObstacleAvoiding.stopp
       (ObstacleAvoiding.forword (ObstacleAvoiding.setup power_on)))
  = Motor (true, false) (true, false) 0 0 /\
  motor_output
    (actuator SkObstacleAvoiding Stop
       (actuator SkObstacleAvoiding Forward (setup_of SkObstacleAvoiding power_on)))
  <> table Stop.
Proof. split; [ vm_compute; reflexivity | vm_compute; discriminate ]. Qed.

(** C2.  Whatever sequence of actuator calls a sketch makes after its
    [setup], in any of the four sketches, the motor output after each call
    never has the forward and the backward signal of one channel both
    asserted. *)
Theorem C2_never_both_directions :
  forall k cs, no_conflict (motor_output (run k cs (setup_of k power_on))).
Proof.
  intros k cs. unfold run.
  generalize (setup_no_conflict k). generalize (setup_of k power_on).
  induction cs as [| c cs IH]; intros b Hb; cbn [fold_left].
  - exact Hb.
  - apply IH. apply actuator_preserves_no_conflict. exact Hb.
Qed.

(** C8.  From every prior board state, stopp of each of the four sketches
    (the six-write one and the two-write one of Obstacle Avoiding) drives
    the left and the right speed magnitude to 0. *)
Theorem C8_stop_zeroes_speeds :
  forall k b,
    left_speed (motor_output (actuator k Stop b)) = 0 /\
    right_speed (motor_output (actuator k Stop b)) = 0.
Proof.
  intros k b.
  destruct (sketch_command_dec k Stop) as [E | N].
  - injection E as ->. cbn [actuator].
    rewrite obstacle_stopp_output. split; reflexivity.
  - rewrite full_write_output by exact N. split; reflexivity.
Qed.

(** ** Line follower *)

(** C6.  One loop iteration of the line follower calls, for the sensor
    pair (left, right) read in that iteration, forword on (0,0), right on
    (0,1), left on (1,0) and stopp on (1,1); the choice depends on the pair
    alone, [digitalRead] yields no other value, and the motor output after
    the iteration is the table row of the command. *)
Theorem C6_line_follower_dispatch :
  forall env s,
    let c := match env LineFollower.sensorL, env LineFollower.sensorR with
             | false, false => Forward
             | false, true => Right
             | true, false => Left
             | true, true => Stop
             end in
    LineFollower.hw (LineFollower.loop env s)
    = actuator SkLineFollower c (LineFollower.hw s) /\
    motor_output (LineFollower.hw (LineFollower.loop env s)) = table c /\
    LineFollower.sl (LineFollower.loop env s) = Z.b2z (env LineFollower.sensorL) /\
    LineFollower.sr (LineFollower.loop env s) = Z.b2z (env LineFollower.sensorR).
Proof.
  intros env s c.
  assert (H : LineFollower.hw (LineFollower.loop env s)
              = actuator SkLineFollower c (LineFollower.hw s)).
  { subst c. unfold LineFollower.loop, digitalRead.
    destruct (env LineFollower.sensorL), (env LineFollower.sensorR); reflexivity. }
  split; [exact H |]. split.
  - rewrite H. apply full_write_output. discriminate.
  - unfold LineFollower.loop, digitalRead.
    destruct (env LineFollower.sensorL), (env LineFollower.sensorR);
      split; reflexivity.
Qed.

(** ** Remote command *)

Lemma to_char_byte c : 0 <= c < 128 -> to_char c = c.
Proof. intros H. unfold to_char. rewrite Z.mod_small by lia. lia. Qed.

Lemma to_char_high c : 128 <= c < 256 -> to_char c < 0.
Proof.
  intros H. unfold to_char.
  replace (c + 128) with ((c - 128) + 1 * 256) by lia.
  rewrite Z.mod_add by lia. rewrite Z.mod_small by lia. lia.
Qed.

Lemma bluetooth_loop_byte s c rest :
  BluetoothControlled.rx s = c :: rest ->
  BluetoothControlled.loop s
  = BluetoothControlled.State
      (BluetoothControlled.switch_Reading (to_char c) (BluetoothControlled.hw s))
      rest (to_char c).
Proof.
  intros E. unfold BluetoothControlled.loop. rewrite E.
  unfold Serial_available, Serial_read.
  replace (Z.of_nat (length (c :: rest)) >? 0) with true; [reflexivity |].
  symmetry. cbn [length]. apply Z.gtb_lt. lia.
Qed.

Lemma switch_Reading_unmatched r b :
  r <> chr "F" -> r <> chr "B" -> r <> chr "R" -> r <> chr "L" -> r <> chr "S" ->
  BluetoothControlled.switch_Reading r b = b.
Proof.
  intros HF HB HR HL HS. unfold BluetoothControlled.switch_Reading.
  rewrite (proj2 (Z.eqb_neq _ _) HF), (proj2 (Z.eqb_neq _ _) HB),
    (proj2 (Z.eqb_neq _ _) HR), (proj2 (Z.eqb_neq _ _) HL),
    (proj2 (Z.eqb_neq _ _) HS).
  reflexivity.
Qed.

(** C7.  When a byte is waiting, one loop iteration of the Bluetooth sketch
    takes it and calls forword for 'F', backword for 'B', right for 'R',
    left for 'L', stopp for 'S'; for every other byte the board is left
    exactly as it was: no pin is written and no output call is made.  With
    'F', 'Z', 'S' waiting, three iterations give the Forward output, then
    an unchanged board, then the Stop output. *)
Theorem C7_remote_dispatch :
  forall s,
    (forall c rest,
        BluetoothControlled.rx s = c :: rest -> 0 <= c < 256 ->
        BluetoothControlled.rx (BluetoothControlled.loop s) = rest /\
        (c = chr "F" ->
         BluetoothControlled.hw (BluetoothControlled.loop s)
         = actuator SkBluetoothControlled Forward (BluetoothControlled.hw s)) /\
        (c = chr "B" ->
         BluetoothControlled.hw (BluetoothControlled.loop s)
         = actuator SkBluetoothControlled Backward (BluetoothControlled.hw s)) /\
        (c = chr "R" ->
         BluetoothControlled.hw (BluetoothControlled.loop s)
         = actuator SkBluetoothControlled Right (BluetoothControlled.hw s)) /\
        (c = chr "L" ->
         BluetoothControlled.hw (BluetoothControlled.loop s)
         = actuator SkBluetoothControlled Left (BluetoothControlled.hw s)) /\
        (c = chr "S" ->
         BluetoothControlled.hw (BluetoothControlled.loop s)
         = actuator SkBluetoothControlled Stop (BluetoothControlled.hw s)) /\
        (c <> chr "F" -> c <> chr "B" -> c <> chr "R" -> c <> chr "L" ->
         c <> chr "S" ->
         BluetoothControlled.hw (BluetoothControlled.loop s)
         = BluetoothControlled.hw s)) /\
    (forall rest,
        BluetoothControlled.rx s = chr "F" :: chr "Z" :: chr "S" :: rest ->
        let s1 := BluetoothControlled.loop s in
        let s2 := BluetoothControlled.loop s1 in
        let s3 := BluetoothControlled.loop s2 in
        motor_output (BluetoothControlled.hw s1) = table Forward /\
        BluetoothControlled.hw s2 = BluetoothControlled.hw s1 /\
        motor_output (BluetoothControlled.hw s3) = table Stop /\
        BluetoothControlled.rx s3 = rest).
Proof.
  intros s. split.
  - intros c rest E Hc.
    rewrite (bluetooth_loop_byte s c rest E). cbn [BluetoothControlled.hw BluetoothControlled.rx].
    split; [reflexivity |].
    repeat split; try (intros ->; reflexivity).
    intros HF HB HR HL HS.
    destruct (Z_lt_ge_dec c 128) as [Hlo | Hhi].
    + rewrite to_char_byte by lia.
      apply switch_Reading_unmatched; assumption.
    + pose proof (to_char_high c ltac:(lia)) as Hneg.
      apply switch_Reading_unmatched; vm_compute chr; lia.
  - intros rest E s1 s2 s3.
    assert (E1 : s1 = BluetoothControlled.State
                        (BluetoothControlled.forword (BluetoothControlled.hw s))
                        (chr "Z" :: chr "S" :: rest) (chr "F")).
    { subst s1. rewrite (bluetooth_loop_byte s _ _ E). reflexivity. }
    assert (E2 : s2 = BluetoothControlled.State
                        (BluetoothControlled.forword (BluetoothControlled.hw s))
                        (chr "S" :: rest) (chr "Z")).
    { subst s2. rewrite E1. reflexivity. }
    assert (E3 : s3 = BluetoothControlled.State
                        (BluetoothControlled.stopp
                           (BluetoothControlled.forword (BluetoothControlled.hw s)))
                        rest (chr "S")).
    { subst s3. rewrite E2. reflexivity. }
    rewrite E1, E2, E3. cbn [BluetoothControlled.hw BluetoothControlled.rx].
    split; [| split; [reflexivity | split; [| reflexivity]]].
    + apply (full_write_output SkBluetoothControlled Forward). discriminate.
    + apply (full_write_output SkBluetoothControlled Stop). discriminate.
Qed.

Lemma C7_remote_dispatch_witness :
  BluetoothControlled.rx remote_FZS = chr "F" :: chr "Z" :: chr "S" :: [] /\
  0 <= chr "F" < 256 /\
  BluetoothControlled.hw (BluetoothControlled.loop remote_FZS)
  = actuator SkBluetoothControlled Forward (BluetoothControlled.hw remote_FZS) /\
  BluetoothControlled.hw (BluetoothControlled.loop (BluetoothControlled.loop remote_FZS))
  = BluetoothControlled.hw (BluetoothControlled.loop remote_FZS) /\
  motor_output
    (BluetoothControlled.hw
       (BluetoothControlled.loop
          (BluetoothControlled.loop (BluetoothControlled.loop remote_FZS))))
  = table Stop.
Proof.
  destruct (C7_remote_dispatch remote_FZS) as [Hbyte Hseq].
  assert (Hrx : BluetoothControlled.rx remote_FZS = chr "F" :: chr "Z" :: chr "S" :: [])
    by reflexivity.
  assert (Hrange : 0 <= chr "F" < 256) by (cbv; split; [discriminate | reflexivity]).
  split; [exact Hrx |]. split; [exact Hrange |].
  split.
  - exact (proj1 (proj2 (Hbyte _ _ Hrx Hrange)) eq_refl).
  - destruct (Hseq [] Hrx) as (_ & H2 & H3 & _). split; [exact H2 | exact H3].
Defined.

(** ** The output log *)

Lemma log_digitalWrite b p v :
  log (digitalWrite p v b) = log b ++ [EDigitalWrite p v].
Proof. reflexivity. Qed.

Lemma log_analogWrite b p v :
  log (analogWrite p v b) = log b ++ [EAnalogWrite p v].
Proof. reflexivity. Qed.

Lemma log_emit b e : log (emit e b) = log b ++ [e].
Proof. reflexivity. Qed.

(** Collects what a sequence of calls appends to the log. *)
Ltac read_log :=
  repeat rewrite seq_apply;
  unfold pinMode, delay, delayMicroseconds, Serial_println, lcd_print, lcd_clear;
  repeat first
    [ rewrite log_digitalWrite
    | rewrite log_analogWrite
    | rewrite log_emit ];
  repeat rewrite <- app_assoc; cbn [app].

(** ** Truncation of the float product *)

Lemma quot_pos_facts n d :
  0 < d ->
  (0 <= n -> d * (n ÷ d) <= n < d * (n ÷ d) + d) /\
  (n <= 0 -> n <= d * (n ÷ d) < n + d).
Proof.
  intros Hd. pose proof (Z.quot_rem' n d) as E. split; intros Hn.
  - pose proof (Z.rem_bound_pos n d Hn Hd). lia.
  - pose proof (Z.rem_bound_pos_neg n d Hd Hn). lia.
Qed.

Lemma to_long_le q : (0 <= q)%Q -> (inject_Z (to_long q) <= q)%Q.
Proof.
  destruct q as [n d]. unfold Qle, to_long; cbn. intros H.
  destruct (quot_pos_facts n (Zpos d) ltac:(lia)) as [P _]. lia.
Qed.

Lemma to_long_gt q : (q - 1 < inject_Z (to_long q))%Q.
Proof.
  destruct q as [n d]. unfold Qlt, Qminus, Qplus, Qopp, to_long; cbn.
  rewrite Pos.mul_1_r.
  destruct (quot_pos_facts n (Zpos d) ltac:(lia)) as [P N].
  destruct (Z_le_gt_dec 0 n); lia.
Qed.

Lemma to_long_nonpos q : (q <= 0)%Q -> to_long q <= 0.
Proof.
  destruct q as [n d]. unfold Qle, to_long; cbn. intros H.
  destruct (quot_pos_facts n (Zpos d) ltac:(lia)) as [_ N]. nia.
Qed.

Lemma to_long_between q z :
  0 <= z -> (inject_Z z <= q)%Q -> (q < inject_Z z + 1)%Q -> to_long q = z.
Proof.
  destruct q as [n d]. unfold Qle, Qlt, Qplus, to_long; cbn. intros Hz H1 H2.
  destruct (quot_pos_facts n (Zpos d) ltac:(lia)) as [P _].
  assert (Hn : 0 <= n) by nia. specialize (P Hn). nia.
Qed.

Lemma to_long_zero q : (-1 < q)%Q -> (q < 1)%Q -> to_long q = 0.
Proof.
  destruct q as [n d]. unfold Qlt, to_long; cbn. intros H1 H2.
  destruct (quot_pos_facts n (Zpos d) ltac:(lia)) as [P N].
  destruct (Z_le_gt_dec 0 n); nia.
Qed.

(** Dropping the fraction of a value that is within [tol] of [x >= 0]. *)
Lemma trunc_window (q x tol : Q) :
  (0 <= x)%Q -> (Qabs (q - x) <= tol)%Q ->
  (x - tol - 1 < inject_Z (to_long q))%Q /\ (inject_Z (to_long q) <= x + tol)%Q.
Proof.
  intros Hx Habs. apply Qabs_Qle_condition in Habs. destruct Habs as [Hlo Hhi].
  pose proof (to_long_gt q) as G. split; [lra |].
  destruct (Qlt_le_dec q 0) as [Hneg | Hpos].
  - pose proof (to_long_nonpos q ltac:(lra)) as Hz.
    assert (inject_Z (to_long q) <= 0)%Q by (unfold Qle; cbn; lia).
    lra.
  - pose proof (to_long_le q Hpos). lra.
Qed.

Lemma half_product_nonneg pulse : 0 <= pulse -> (0 <= half_product pulse)%Q.
Proof.
  intros H. unfold half_product, ldiv, speed_of_sound_cm_per_us.
  pose proof (Z.quot_pos pulse 2 H ltac:(lia)) as Hq.
  assert (0 <= inject_Z (pulse ÷ 2))%Q by (unfold Qle; cbn; lia).
  lra.
Qed.

(** The integer half loses at most half a microsecond. *)
Lemma half_product_real_half pulse :
  0 <= pulse ->
  (half_product pulse <= inject_Z pulse / 2 * speed_of_sound_cm_per_us)%Q /\
  (inject_Z pulse / 2 * speed_of_sound_cm_per_us <= half_product pulse + (343 # 20000))%Q.
Proof.
  intros H. unfold half_product, ldiv, speed_of_sound_cm_per_us.
  destruct (quot_pos_facts pulse 2 ltac:(lia)) as [P _]. specialize (P H).
  assert (H1 : (2 * inject_Z (pulse ÷ 2) <= inject_Z pulse)%Q).
  { rewrite <- (inject_Z_mult 2). rewrite <- Zle_Qle. lia. }
  assert (H2 : (inject_Z pulse <= 2 * inject_Z (pulse ÷ 2) + 1)%Q).
  { rewrite <- (inject_Z_mult 2). rewrite <- (inject_Z_plus _ 1). rewrite <- Zle_Qle. lia. }
  unfold Qdiv. change (/ 2)%Q with (1 # 2)%Q.
  split; lra.
Qed.

Lemma obstacle_distance fl pulse s :
  ObstacleAvoiding.distance (ObstacleAvoiding.Ultrasonic fl pulse s)
  = to_long (fl (half_product pulse)).
Proof. reflexivity. Qed.

Lemma parking_distance fl pulse s :
  ParkingBuzzer.distance (ParkingBuzzer.loop fl pulse s)
  = to_long (fl (half_product pulse)).
Proof. reflexivity. Qed.

Lemma to_long_lt_iff q n :
  1 <= n -> to_long q < n <-> (q < inject_Z n)%Q.
Proof.
  destruct q as [a d]. unfold Qlt, to_long; cbn. intros Hn.
  destruct (quot_pos_facts a (Zpos d) ltac:(lia)) as [P N].
  destruct (Z_le_gt_dec 0 a) as [Ha | Ha].
  - specialize (P Ha). split; intros H; nia.
  - specialize (N ltac:(lia)). split; intros H; nia.
Qed.

(** ** Obstacle avoidance *)

(** C5.  After the measurement of one loop iteration of the Obstacle
    Avoiding sketch, a [distance] below 20 makes the iteration call stopp,
    hold 250 ms, call backword, hold 500 ms, call right and hold 1000 ms,
    and nothing else; a [distance] of 20 or more makes it call forword and
    nothing else.  20 itself is on the forword side.  The comparison of the
    truncated [distance] with 20 decides as the comparison of the float
    product itself with 20 would. *)
Theorem C5_obstacle_threshold :
  forall fl pulse s,
    let m := ObstacleAvoiding.Ultrasonic fl pulse s in
    let after := ObstacleAvoiding.hw (ObstacleAvoiding.loop fl pulse s) in
    (ObstacleAvoiding.distance m < 20 ->
     after = (actuator SkObstacleAvoiding Stop ;;; delay 250 ;;;
              actuator SkObstacleAvoiding Backward ;;; delay 500 ;;;
              actuator SkObstacleAvoiding Right ;;; delay 1000)
               (ObstacleAvoiding.hw m) /\
     log after = log (ObstacleAvoiding.hw m) ++
       [EDigitalWrite 10 LOW; EDigitalWrite 5 LOW;
        EDelay 250;
        EDigitalWrite 9 LOW; EDigitalWrite 8 HIGH;
        EDigitalWrite 7 LOW; EDigitalWrite 6 HIGH;
        EAnalogWrite 10 150; EAnalogWrite 5 150;
        EDelay 500;
        EDigitalWrite 9 HIGH; EDigitalWrite 8 LOW;
        EDigitalWrite 7 LOW; EDigitalWrite 6 LOW;
        EAnalogWrite 10 150; EAnalogWrite 5 0;
        EDelay 1000] /\
     motor_output after = table Right) /\
    (20 <= ObstacleAvoiding.distance m ->
     after = actuator SkObstacleAvoiding Forward (ObstacleAvoiding.hw m) /\
     log after = log (ObstacleAvoiding.hw m) ++
       [EDigitalWrite 9 HIGH; EDigitalWrite 8 LOW;
        EDigitalWrite 7 HIGH; EDigitalWrite 6 LOW;
        EAnalogWrite 10 150; EAnalogWrite 5 150] /\
     motor_output after = table Forward) /\
    (ObstacleAvoiding.distance m < 20 <-> (fl (half_product pulse) < 20)%Q).
Proof.
  intros fl pulse s m after. subst after. unfold ObstacleAvoiding.loop.
  fold m.
  split; [| split; [| subst m; rewrite obstacle_distance;
                      apply (to_long_lt_iff _ 20); lia]];
    intros Hd.
  - rewrite (proj2 (Z.ltb_lt _ _) Hd).
    unfold ObstacleAvoiding.on_hw; cbn [ObstacleAvoiding.hw actuator].
    split; [reflexivity |]. split.
    + unfold ObstacleAvoiding.stopp, ObstacleAvoiding.backword, ObstacleAvoiding.right.
      read_log. reflexivity.
    + rewrite seq_apply.
      change (delay 1000) with (emit (EDelay 1000)).
      unfold motor_output. repeat rewrite pin_drive_emit.
      apply (full_write_output SkObstacleAvoiding Right). discriminate.
  - rewrite (proj2 (Z.ltb_ge _ _) Hd).
    unfold ObstacleAvoiding.on_hw; cbn [ObstacleAvoiding.hw actuator].
    split; [reflexivity |]. split.
    + unfold ObstacleAvoiding.forword. read_log. reflexivity.
    + apply (full_write_output SkObstacleAvoiding Forward). discriminate.
Qed.

Lemma C5_obstacle_threshold_witness :
  (ObstacleAvoiding.distance (ObstacleAvoiding.Ultrasonic exact 1000 obstacle_start) < 20 /\
   motor_output (ObstacleAvoiding.hw (ObstacleAvoiding.loop exact 1000 obstacle_start))
   = table Right) /\
  (20 <= ObstacleAvoiding.distance (ObstacleAvoiding.Ultrasonic exact 1168 obstacle_start) /\
   motor_output (ObstacleAvoiding.hw (ObstacleAvoiding.loop exact 1168 obstacle_start))
   = table Forward).
Proof.
  split.
  - assert (H : ObstacleAvoiding.distance
                  (ObstacleAvoiding.Ultrasonic exact 1000 obstacle_start) < 20)
      by (vm_compute; reflexivity).
    split; [exact H |].
    exact (proj2 (proj2 (proj1 (C5_obstacle_threshold exact 1000 obstacle_start) H))).
  - assert (H : 20 <= ObstacleAvoiding.distance
                        (ObstacleAvoiding.Ultrasonic exact 1168 obstacle_start))
      by (vm_compute; discriminate).
    split; [exact H |].
    exact (proj2 (proj2
             (proj1 (proj2 (C5_obstacle_threshold exact 1168 obstacle_start)) H))).
Defined.

(** ** Parking buzzer *)






(** ** Ranging *)

(** An echo of 100 microseconds reads 1 cm under every rounding that stays
    within a quarter of a centimetre of the product 1.715. *)
Lemma distance_of_100us fl s :
  within (1 # 4) fl (half_product 100) ->
  ObstacleAvoiding.distance (ObstacleAvoiding.Ultrasonic fl 100 s) = 1.
Proof.
  unfold within. intros H. rewrite obstacle_distance.
  apply Qabs_Qle_condition in H. destruct H as [Hlo Hhi].
  assert (E : (half_product 100 == 343 # 200)%Q) by reflexivity.
  apply to_long_between; [lia | |]; change (inject_Z 1) with 1%Q; lra.
Qed.

(** C3 (as amended).  For an echo time [pulse >= 0], both ranging
    expressions give the same whole number of centimetres: the float product
    of the integer half of the echo time and 0.0343, with its fraction
    dropped.  When the rounding of the product stays within [tol], the
    distance lies in the window (x - tol - 1, x + tol] around the product x,
    and x is at most 0.01715 below (pulse/2) * 0.0343. *)
Theorem C3_distance_is_truncated :
  forall fl tol pulse s p,
    0 <= pulse ->
    within tol fl (half_product pulse) ->
    let d := ObstacleAvoiding.distance (ObstacleAvoiding.Ultrasonic fl pulse s) in
    ParkingBuzzer.distance (ParkingBuzzer.loop fl pulse p) = d /\
    (half_product pulse - tol - 1 < inject_Z d)%Q /\
    (inject_Z d <= half_product pulse + tol)%Q /\
    (inject_Z pulse / 2 * speed_of_sound_cm_per_us - (343 # 20000) - tol - 1
     < inject_Z d)%Q /\
    (inject_Z d <= inject_Z pulse / 2 * speed_of_sound_cm_per_us + tol)%Q.
Proof.
  intros fl tol pulse s p Hp Hfl d. subst d.
  rewrite parking_distance, obstacle_distance.
  split; [reflexivity |].
  destruct (trunc_window (fl (half_product pulse)) (half_product pulse) tol
              (half_product_nonneg pulse Hp) Hfl) as [Hlo Hhi].
  destruct (half_product_real_half pulse Hp) as [R1 R2].
  unfold Qdiv in *. change (/ 2)%Q with (1 # 2)%Q in *.
  repeat split; lra.
Qed.

Lemma C3_distance_is_truncated_witness :
  0 <= 100 /\
  within 0 exact (half_product 100) /\
  (half_product 100 - 0 - 1
   < inject_Z (ObstacleAvoiding.distance
                 (ObstacleAvoiding.Ultrasonic exact 100 obstacle_start)))%Q /\
  (inject_Z (ObstacleAvoiding.distance
               (ObstacleAvoiding.Ultrasonic exact 100 obstacle_start))
   <= half_product 100 + 0)%Q.
Proof.
  assert (H0 : 0 <= 100) by lia.
  assert (H1 : within 0 exact (half_product 100)) by (vm_compute; discriminate).
  split; [exact H0 |]. split; [exact H1 |].
  destruct (C3_distance_is_truncated exact 0 100 obstacle_start parking_start H0 H1)
    as (_ & Hlo & Hhi & _).
  split; [exact Hlo | exact Hhi].
Defined.

(** C3 (as stated) fails: for an echo of 100 microseconds both sketches
    compute the distance 1, which is 0.715 cm away from
    (100/2) * 0.0343 = 1.715. *)
Lemma C3_distance_not_within_tolerance :
  ObstacleAvoiding.distance (ObstacleAvoiding.Ultrasonic exact 100 obstacle_start) = 1 /\
  ParkingBuzzer.distance (ParkingBuzzer.loop exact 100 parking_start) = 1 /\
  (Qabs (inject_Z 1 - inject_Z 100 / 2 * speed_of_sound_cm_per_us) == 143 # 200)%Q.
Proof. repeat split. Qed.

(** C4 (as amended).  For every echo time below 60 microseconds that
    [pulseIn] returns, 0 included (the value it returns when it measured no
    pulse), and a rounding within 0.005 of the product: [duration] is that
    time, the distance computed by both sketches is 0, and the Obstacle
    Avoiding loop goes through its stopp, backword, right sequence.  The
    distance obtained without an echo is thus the distance of a reading. *)
Theorem C4_missing_echo_reads_zero :
  forall fl tol pulse s p,
    0 <= pulse < 60 ->
    (tol <= 1 # 200)%Q ->
    within tol fl (half_product pulse) ->
    let m := ObstacleAvoiding.Ultrasonic fl pulse s in
    ObstacleAvoiding.duration m = pulse /\
    ObstacleAvoiding.distance m = 0 /\
    ParkingBuzzer.distance (ParkingBuzzer.loop fl pulse p) = 0 /\
    ObstacleAvoiding.hw (ObstacleAvoiding.loop fl pulse s)
    = (actuator SkObstacleAvoiding Stop ;;; delay 250 ;;;
       actuator SkObstacleAvoiding Backward ;;; delay 500 ;;;
       actuator SkObstacleAvoiding Right ;;; delay 1000)
        (ObstacleAvoiding.hw m).
Proof.
  intros fl tol pulse s p Hp Htol Hfl m.
  assert (Hz : to_long (fl (half_product pulse)) = 0).
  { unfold within in Hfl. apply Qabs_Qle_condition in Hfl. destruct Hfl as [Hlo Hhi].
    pose proof (half_product_nonneg pulse ltac:(lia)) as H0.
    assert (H29 : (half_product pulse <= 29 * (343 # 10000))%Q).
    { unfold half_product, ldiv, speed_of_sound_cm_per_us.
      destruct (quot_pos_facts pulse 2 ltac:(lia)) as [P _].
      specialize (P ltac:(lia)).
      assert (inject_Z (pulse ÷ 2) <= 29)%Q
        by (change 29%Q with (inject_Z 29); rewrite <- Zle_Qle; lia).
      lra. }
    apply to_long_zero; lra. }
  split; [reflexivity |].
  assert (Hd : ObstacleAvoiding.distance m = 0)
    by (subst m; rewrite obstacle_distance; exact Hz).
  split; [exact Hd |].
  split; [rewrite parking_distance; exact Hz |].
  unfold ObstacleAvoiding.loop. fold m. rewrite Hd. reflexivity.
Qed.

Lemma C4_missing_echo_reads_zero_witness :
  0 <= 0 < 60 /\
  (0 <= 1 # 200)%Q /\
  within 0 exact (half_product 0) /\
  ObstacleAvoiding.distance (ObstacleAvoiding.Ultrasonic exact 0 obstacle_start) = 0.
Proof.
  assert (H0 : 0 <= 0 < 60) by lia.
  assert (H1 : (0 <= 1 # 200)%Q) by (vm_compute; discriminate).
  assert (H2 : within 0 exact (half_product 0)) by (vm_compute; discriminate).
  split; [exact H0 |]. split; [exact H1 |]. split; [exact H2 |].
  exact (proj1 (proj2
           (C4_missing_echo_reads_zero exact 0 0 obstacle_start parking_start H0 H1 H2))).
Defined.

(** C4 (as stated) fails for the distance the ranging code produces: when
    [pulseIn] returns 0, no pulse having been measured, the distance of
    both sketches is 0, the very distance an echo of 58 microseconds gives,
    and the Obstacle Avoiding loop leaves the board in the same state in
    both cases.  Only the raw [duration] differs (0 and 58). *)
Lemma C4_missing_echo_not_distinguished :
  ObstacleAvoiding.distance (ObstacleAvoiding.Ultrasonic exact 0 obstacle_start) = 0 /\
  ObstacleAvoiding.distance (ObstacleAvoiding.Ultrasonic exact 58 obstacle_start) = 0 /\
  ObstacleAvoiding.hw (ObstacleAvoiding.loop exact 0 obstacle_start)
  = ObstacleAvoiding.hw (ObstacleAvoiding.loop exact 58 obstacle_start) /\
  ParkingBuzzer.distance (ParkingBuzzer.loop exact 0 parking_start) = 0 /\
  ParkingBuzzer.distance (ParkingBuzzer.loop exact 58 parking_start) = 0 /\
  ObstacleAvoiding.duration (ObstacleAvoiding.Ultrasonic exact 0 obstacle_start) = 0 /\
  ObstacleAvoiding.duration (ObstacleAvoiding.Ultrasonic exact 58 obstacle_start) = 58.
Proof. repeat split. Qed.

(** ** LED/LCD toggle *)

Lemma ledlcd_counter_invariant env s :
  LedLcd.counter s = 0 \/ LedLcd.counter s = 1 ->
  LedLcd.counter (LedLcd.loop env s) = 0 \/ LedLcd.counter (LedLcd.loop env s) = 1.
Proof.
  intros [E | E]; unfold LedLcd.loop, digitalRead; rewrite E;
    destruct (env LedLcd.button); cbn; auto.
Qed.

Lemma ledlcd_loop_red env s :
  env LedLcd.button = true -> LedLcd.counter s = 0 ->
  LedLcd.loop env s
  = LedLcd.State
      ((digitalWrite LedLcd.Red_led 1 ;;; lcd_print "Red led " ;;;
        digitalWrite LedLcd.Green_led 0 ;;; delay 1000) (LedLcd.hw s))
      1 1.
Proof.
  intros Hb E. unfold LedLcd.loop, digitalRead. rewrite Hb, E. reflexivity.
Qed.

Lemma ledlcd_loop_green env s :
  env LedLcd.button = true -> LedLcd.counter s = 1 ->
  LedLcd.loop env s
  = LedLcd.State
      ((digitalWrite LedLcd.Red_led 0 ;;; digitalWrite LedLcd.Green_led 1 ;;;
        lcd_print "Green led " ;;; delay 1000) (LedLcd.hw s))
      1 0.
Proof.
  intros Hb E. unfold LedLcd.loop, digitalRead. rewrite Hb, E. reflexivity.
Qed.

Lemma ledlcd_loop_released env s :
  env LedLcd.button = false ->
  LedLcd.loop env s
  = LedLcd.State
      ((digitalWrite LedLcd.Red_led 0 ;;; digitalWrite LedLcd.Green_led 0 ;;;
        lcd_clear) (LedLcd.hw s))
      0 (LedLcd.counter s).
Proof.
  intros Hb. unfold LedLcd.loop, digitalRead. rewrite Hb. reflexivity.
Qed.

(** C10 (as amended).  With [counter] 0 or 1: an iteration that reads the
    button pressed drives exactly one LED on, the red one (green off,
    "Red led " printed, counter to 1) when [counter] is 0 and the green one
    (red off, "Green led " printed, counter to 0) when [counter] is 1, and
    holds it 1000 ms; an iteration that reads the button released drives
    both LEDs off and clears the display, [counter] unchanged. *)
Theorem C10_leds_follow_button :
  forall env s,
    LedLcd.counter s = 0 \/ LedLcd.counter s = 1 ->
    let s' := LedLcd.loop env s in
    let red := pin_drive (LedLcd.hw s') LedLcd.Red_led in
    let green := pin_drive (LedLcd.hw s') LedLcd.Green_led in
    (env LedLcd.button = true -> LedLcd.counter s = 0 ->
     red = Level 1 /\ green = Level 0 /\ LedLcd.counter s' = 1 /\
     log (LedLcd.hw s') = log (LedLcd.hw s) ++
       [EDigitalWrite 3 1; ELcdPrint "Red led "; EDigitalWrite 4 0; EDelay 1000]) /\
    (env LedLcd.button = true -> LedLcd.counter s = 1 ->
     red = Level 0 /\ green = Level 1 /\ LedLcd.counter s' = 0 /\
     log (LedLcd.hw s') = log (LedLcd.hw s) ++
       [EDigitalWrite 3 0; EDigitalWrite 4 1; ELcdPrint "Green led "; EDelay 1000]) /\
    (env LedLcd.button = false ->
     red = Level 0 /\ green = Level 0 /\ LedLcd.counter s' = LedLcd.counter s /\
     log (LedLcd.hw s') = log (LedLcd.hw s) ++
       [EDigitalWrite 3 0; EDigitalWrite 4 0; ELcdClear]) /\
    (LedLcd.counter s' = 0 \/ LedLcd.counter s' = 1).
Proof.
  intros env s Hc s' red green. subst red green s'.
  split; [| split; [| split]].
  - intros Hb E. rewrite (ledlcd_loop_red env s Hb E).
    cbn [LedLcd.hw LedLcd.counter].
    unfold LedLcd.Red_led, LedLcd.Green_led, lcd_print, delay.
    repeat split; try (read_pins; reflexivity). read_log. reflexivity.
  - intros Hb E. rewrite (ledlcd_loop_green env s Hb E).
    cbn [LedLcd.hw LedLcd.counter].
    unfold LedLcd.Red_led, LedLcd.Green_led, lcd_print, delay.
    repeat split; try (read_pins; reflexivity). read_log. reflexivity.
  - intros Hb. rewrite (ledlcd_loop_released env s Hb).
    cbn [LedLcd.hw LedLcd.counter].
    unfold LedLcd.Red_led, LedLcd.Green_led, lcd_clear.
    repeat split; try (read_pins; reflexivity). read_log. reflexivity.
  - apply ledlcd_counter_invariant. exact Hc.
Qed.

Lemma C10_leds_follow_button_witness :
  (LedLcd.counter LedLcd.initial = 0 \/ LedLcd.counter LedLcd.initial = 1) /\
  pressed LedLcd.button = true /\
  pin_drive (LedLcd.hw (LedLcd.loop pressed LedLcd.initial)) LedLcd.Red_led = Level 1 /\
  pin_drive (LedLcd.hw (LedLcd.loop pressed LedLcd.initial)) LedLcd.Green_led = Level 0 /\
  LedLcd.counter (LedLcd.loop pressed LedLcd.initial) = 1.
Proof.
  assert (H0 : LedLcd.counter LedLcd.initial = 0 \/ LedLcd.counter LedLcd.initial = 1)
    by (left; reflexivity).
  split; [exact H0 |]. split; [reflexivity |].
  destruct (proj1 (C10_leds_follow_button pressed LedLcd.initial H0) eq_refl eq_refl)
    as (Hr & Hg & Hc & _).
  split; [exact Hr |]. split; [exact Hg | exact Hc].
Defined.

(** C10 (as stated) fails: after a press from the start (red LED on,
    counter 1), an iteration that reads the button released drives the red
    and the green LED both off, the counter still being 1. *)
Lemma C10_released_both_leds_off :
  LedLcd.counter (LedLcd.loop pressed LedLcd.initial) = 1 /\
  pin_drive (LedLcd.hw (LedLcd.loop pressed LedLcd.initial)) LedLcd.Red_led = Level 1 /\
  LedLcd.counter (LedLcd.loop released (LedLcd.loop pressed LedLcd.initial)) = 1 /\
  pin_drive (LedLcd.hw (LedLcd.loop released (LedLcd.loop pressed LedLcd.initial)))
            LedLcd.Red_led = Level 0 /\
  pin_drive (LedLcd.hw (LedLcd.loop released (LedLcd.loop pressed LedLcd.initial)))
            LedLcd.Green_led = Level 0.
Proof. repeat split. Qed.

(** * Further properties of the sketches *)

(** ** The pin store *)

Lemma pins_digitalWrite b p v : pins (digitalWrite p v b) = <[p := Level v]> (pins b).
Proof. reflexivity. Qed.

Lemma pins_analogWrite b p v : pins (analogWrite p v b) = <[p := Duty v]> (pins b).
Proof. reflexivity. Qed.

Lemma pins_emit b e : pins (emit e b) = pins b.
Proof. reflexivity. Qed.

(** Turns the pins of a sequence of writes into a chain of inserts. *)
Ltac read_store :=
  repeat rewrite seq_apply;
  unfold pinMode, delay, delayMicroseconds, Serial_println, lcd_print, lcd_clear;
  repeat first
    [ rewrite pins_digitalWrite
    | rewrite pins_analogWrite
    | rewrite pins_emit ].

(** Equality of two chains of inserts on the six driver pins. *)
Ltac same_store :=
  apply map_eq; intros i;
  destruct (decide (i = 10)) as [-> |]; [by simplify_map_eq |];
  destruct (decide (i = 9)) as [-> |]; [by simplify_map_eq |];
  destruct (decide (i = 8)) as [-> |]; [by simplify_map_eq |];
  destruct (decide (i = 7)) as [-> |]; [by simplify_map_eq |];
  destruct (decide (i = 6)) as [-> |]; [by simplify_map_eq |];
  destruct (decide (i = 5)) as [-> |]; [by simplify_map_eq |];
  by simplify_map_eq.

(** X1.  An actuator function writes the six driver pins and no other:
    every pin outside 5..10 is driven after the call as it was before. *)
Theorem actuator_frame :
  forall k c b p,
    ~ (5 <= p <= 10) ->
    pin_drive (actuator k c b) p = pin_drive b p.
Proof.
  intros k c b p Hp.
  destruct k, c; unfold actuator; autounfold with car;
    repeat rewrite seq_apply;
    repeat first
      [ rewrite pin_drive_digitalWrite_ne by lia
      | rewrite pin_drive_analogWrite_ne by lia ];
    reflexivity.
Qed.

Lemma actuator_frame_witness :
  ~ (5 <= 3 <= 10) /\
  pin_drive (actuator SkObstacleAvoiding Backward power_on) 3 = pin_drive power_on 3.
Proof.
  assert (H : ~ (5 <= 3 <= 10)) by lia.
  split; [exact H |].
  exact (actuator_frame SkObstacleAvoiding Backward power_on 3 H).
Defined.

Lemma actuator_twice_pins k c b :
  pins (actuator k c (actuator k c b)) = pins (actuator k c b).
Proof.
  destruct k, c; unfold actuator; autounfold with car; read_store; same_store.
Qed.

(** X2.  Every actuator function, in every sketch, is idempotent on the
    pins: calling it a second time leaves the whole pin store as the first
    call left it. *)
Theorem actuator_idempotent :
  forall k c b,
    pins (actuator k c (actuator k c b)) = pins (actuator k c b).
Proof. exact actuator_twice_pins. Qed.

(** ** The direction test *)

Lemma added_app (c : cmd) b es : log (c b) = log b ++ es -> added c b = es.
Proof. intros E. unfold added. rewrite E. apply drop_app_length. Qed.

(** Reads the motor output after a sequence of writes to the driver pins. *)
Ltac read_motor :=
  unfold motor_output; autounfold with car; read_pins; reflexivity.

(** X3.  One pass of the direction test holds, in this order, the Forward,
    Backward, Right, Left and Stop outputs for 2000 ms each, whatever the
    board was before, and ends with the Stop output. *)
Theorem direction_test_timeline :
  forall b,
    timeline (added CarDirectionTest.loop b) b
    = [(table Forward, 2000); (table Backward, 2000); (table Right, 2000);
       (table Left, 2000); (table Stop, 2000)] /\
    motor_output (CarDirectionTest.loop b) = table Stop.
Proof.
  intros b. split.
  - erewrite added_app.
    2: { unfold CarDirectionTest.loop. autounfold with car. read_log. reflexivity. }
    cbn [timeline replay_event].
    repeat (apply (f_equal2 cons);
            [apply (f_equal2 pair); [read_motor | reflexivity] |]).
    reflexivity.
  - unfold CarDirectionTest.loop, delay. rewrite !seq_apply.
    unfold motor_output. rewrite !pin_drive_emit.
    apply (full_write_output SkCarDirectionTest Stop). discriminate.
Qed.

Lemma direction_test_pins b :
  pins (CarDirectionTest.loop b) = pins (CarDirectionTest.stopp b).
Proof.
  unfold CarDirectionTest.loop. autounfold with car. read_store. same_store.
Qed.

Lemma stopp_pins_eq b b' :
  pins b = pins b' -> pins (CarDirectionTest.stopp b) = pins (CarDirectionTest.stopp b').
Proof.
  intros E. autounfold with car. read_store. rewrite E. reflexivity.
Qed.

(** X4.  However many passes of the direction test have run, one or more,
    the pin store is the one a single stopp would have left on the initial
    board: passes do not accumulate anything in the pins. *)
Theorem direction_test_repeated :
  forall n b,
    pins (Nat.iter (S n) CarDirectionTest.loop b) = pins (CarDirectionTest.stopp b).
Proof.
  induction n as [| n IH]; intros b.
  - apply direction_test_pins.
  - change (Nat.iter (S (S n)) CarDirectionTest.loop b)
      with (CarDirectionTest.loop (Nat.iter (S n) CarDirectionTest.loop b)).
    rewrite direction_test_pins.
    rewrite (stopp_pins_eq _ (CarDirectionTest.stopp b) (IH b)).
    apply (actuator_twice_pins SkCarDirectionTest Stop).
Qed.

(** ** The ranging call and the obstacle loop *)

(** X5.  The ranging call of the Obstacle Avoiding sketch writes the trig
    pin and no other: the trig pin ends low, every other pin is driven as
    before, and so the motor output is the one the car had. *)
Theorem ultrasonic_frame :
  forall fl pulse s,
    (forall p, p <> ObstacleAvoiding.trig ->
               pin_drive (ObstacleAvoiding.hw (ObstacleAvoiding.Ultrasonic fl pulse s)) p
               = pin_drive (ObstacleAvoiding.hw s) p) /\
    pin_drive (ObstacleAvoiding.hw (ObstacleAvoiding.Ultrasonic fl pulse s))
              ObstacleAvoiding.trig = Level LOW /\
    motor_output (ObstacleAvoiding.hw (ObstacleAvoiding.Ultrasonic fl pulse s))
    = motor_output (ObstacleAvoiding.hw s).
Proof.
  intros fl pulse s.
  unfold ObstacleAvoiding.Ultrasonic; cbn [ObstacleAvoiding.hw].
  unfold ObstacleAvoiding.trig, delayMicroseconds.
  split; [| split].
  - intros p Hp. rewrite !seq_apply.
    repeat first
      [ rewrite pin_drive_digitalWrite_ne by lia
      | rewrite pin_drive_emit ].
    reflexivity.
  - read_pins. reflexivity.
  - read_motor.
Qed.

Lemma ultrasonic_frame_witness :
  9 <> ObstacleAvoiding.trig /\
  pin_drive (ObstacleAvoiding.hw (ObstacleAvoiding.Ultrasonic exact 1000 obstacle_start)) 9
  = pin_drive (ObstacleAvoiding.hw obstacle_start) 9.
Proof.
  assert (H : 9 <> ObstacleAvoiding.trig) by discriminate.
  split; [exact H |].
  exact (proj1 (ultrasonic_frame exact 1000 obstacle_start) 9 H).
Defined.

Lemma obstacle_loop_near fl pulse s :
  ObstacleAvoiding.distance (ObstacleAvoiding.Ultrasonic fl pulse s) < 20 ->
  ObstacleAvoiding.hw (ObstacleAvoiding.loop fl pulse s)
  = (ObstacleAvoiding.stopp ;;; delay 250 ;;;
     ObstacleAvoiding.backword ;;; delay 500 ;;;
     ObstacleAvoiding.right ;;; delay 1000)
      (ObstacleAvoiding.hw (ObstacleAvoiding.Ultrasonic fl pulse s)).
Proof.
  intros H. unfold ObstacleAvoiding.loop. cbv zeta.
  rewrite (proj2 (Z.ltb_lt _ _) H). reflexivity.
Qed.

Lemma obstacle_loop_far fl pulse s :
  20 <= ObstacleAvoiding.distance (ObstacleAvoiding.Ultrasonic fl pulse s) ->
  ObstacleAvoiding.hw (ObstacleAvoiding.loop fl pulse s)
  = ObstacleAvoiding.forword
      (ObstacleAvoiding.hw (ObstacleAvoiding.Ultrasonic fl pulse s)).
Proof.
  intros H. unfold ObstacleAvoiding.loop. cbv zeta.
  rewrite (proj2 (Z.ltb_ge _ _) H). reflexivity.
Qed.

Lemma obstacle_near_output fl pulse s :
  ObstacleAvoiding.distance (ObstacleAvoiding.Ultrasonic fl pulse s) < 20 ->
  motor_output (ObstacleAvoiding.hw (ObstacleAvoiding.loop fl pulse s)) = table Right.
Proof.
  intros H. rewrite (obstacle_loop_near fl pulse s H).
  rewrite seq_apply. change (delay 1000) with (emit (EDelay 1000)).
  unfold motor_output. rewrite !pin_drive_emit.
  apply (full_write_output SkObstacleAvoiding Right). discriminate.
Qed.

Lemma obstacle_far_output fl pulse s :
  20 <= ObstacleAvoiding.distance (ObstacleAvoiding.Ultrasonic fl pulse s) ->
  motor_output (ObstacleAvoiding.hw (ObstacleAvoiding.loop fl pulse s)) = table Forward.
Proof.
  intros H. rewrite (obstacle_loop_far fl pulse s H).
  apply (full_write_output SkObstacleAvoiding Forward). discriminate.
Qed.

(** X6.  The holds of one iteration of the Obstacle Avoiding loop.  Below
    the threshold the car is held 250 ms with both speeds 0 and the
    direction signals it had before the iteration, then 500 ms in the
    Backward output, then 1000 ms in the Right output: 1750 ms in which no
    measurement is taken.  At or above the threshold the iteration holds
    nothing. *)
Theorem obstacle_iteration_timeline :
  forall fl pulse s,
    let prior := motor_output (ObstacleAvoiding.hw s) in
    timeline (drop (length (log (ObstacleAvoiding.hw s)))
                   (log (ObstacleAvoiding.hw (ObstacleAvoiding.loop fl pulse s))))
             (ObstacleAvoiding.hw s)
    = if ObstacleAvoiding.distance (ObstacleAvoiding.Ultrasonic fl pulse s) <? 20
      then [(Motor (left_dir prior) (right_dir prior) 0 0, 250);
            (table Backward, 500);
            (table Right, 1000)]
      else [].
Proof.
  intros fl pulse s prior. subst prior.
  destruct (ObstacleAvoiding.distance (ObstacleAvoiding.Ultrasonic fl pulse s) <? 20)
    eqn:E.
  - apply Z.ltb_lt in E. rewrite (obstacle_loop_near fl pulse s E).
    unfold ObstacleAvoiding.Ultrasonic; cbn [ObstacleAvoiding.hw].
    unfold ObstacleAvoiding.trig. autounfold with car.
    read_log. rewrite drop_app_length.
    cbn [timeline replay_event]. unfold skip.
    repeat (apply (f_equal2 cons);
            [apply (f_equal2 pair); [read_motor | reflexivity] |]).
    reflexivity.
  - apply Z.ltb_ge in E. rewrite (obstacle_loop_far fl pulse s E).
    unfold ObstacleAvoiding.Ultrasonic; cbn [ObstacleAvoiding.hw].
    unfold ObstacleAvoiding.trig. autounfold with car.
    read_log. rewrite drop_app_length. reflexivity.
Qed.

Lemma half_product_le_of pulse n :
  0 <= pulse -> pulse < 2 * n + 2 ->
  (half_product pulse <= inject_Z n * (343 # 10000))%Q.
Proof.
  intros H0 H. unfold half_product, ldiv, speed_of_sound_cm_per_us.
  destruct (quot_pos_facts pulse 2 ltac:(lia)) as [P _]. specialize (P H0).
  assert (inject_Z (pulse ÷ 2) <= inject_Z n)%Q by (rewrite <- Zle_Qle; lia).
  lra.
Qed.

Lemma half_product_ge_of pulse n :
  2 * n <= pulse ->
  0 <= n ->
  (inject_Z n * (343 # 10000) <= half_product pulse)%Q.
Proof.
  intros H Hn. unfold half_product, ldiv, speed_of_sound_cm_per_us.
  destruct (quot_pos_facts pulse 2 ltac:(lia)) as [P _]. specialize (P ltac:(lia)).
  assert (inject_Z n <= inject_Z (pulse ÷ 2))%Q by (rewrite <- Zle_Qle; lia).
  lra.
Qed.

(** X7.  The threshold of the Obstacle Avoiding loop in echo time.  With
    the float product rounded within 0.003, the distance is below 20 exactly
    for the echo times below 1168 microseconds: an iteration ends in the
    Right output after such an echo and in the Forward output after any
    longer one. *)
Theorem obstacle_threshold_in_microseconds :
  forall fl pulse s,
    0 <= pulse ->
    within (3 # 1000) fl (half_product pulse) ->
    (ObstacleAvoiding.distance (ObstacleAvoiding.Ultrasonic fl pulse s) < 20
     <-> pulse < 1168) /\
    motor_output (ObstacleAvoiding.hw (ObstacleAvoiding.loop fl pulse s))
    = if pulse <? 1168 then table Right else table Forward.
Proof.
  intros fl pulse s H0 Hfl.
  unfold within in Hfl. apply Qabs_Qle_condition in Hfl. destruct Hfl as [Hlo Hhi].
  assert (Hiff : ObstacleAvoiding.distance (ObstacleAvoiding.Ultrasonic fl pulse s) < 20
                 <-> pulse < 1168).
  { rewrite obstacle_distance. rewrite (to_long_lt_iff _ 20) by lia.
    change (inject_Z 20) with 20%Q.
    split; intros H.
    - destruct (Z_lt_ge_dec pulse 1168) as [L | G]; [exact L | exfalso].
      pose proof (half_product_ge_of pulse 584 ltac:(lia) ltac:(lia)) as Hx.
      change (inject_Z 584) with 584%Q in Hx. lra.
    - pose proof (half_product_le_of pulse 583 H0 ltac:(lia)) as Hx.
      change (inject_Z 583) with 583%Q in Hx. lra. }
  split; [exact Hiff |].
  destruct (pulse <? 1168) eqn:E.
  - apply Z.ltb_lt in E. apply obstacle_near_output. apply Hiff. exact E.
  - apply Z.ltb_ge in E. apply obstacle_far_output.
    destruct (Z_lt_ge_dec
                (ObstacleAvoiding.distance (ObstacleAvoiding.Ultrasonic fl pulse s)) 20)
      as [L | G]; [apply Hiff in L; lia | lia].
Qed.

Lemma obstacle_threshold_in_microseconds_witness :
  0 <= 1167 /\
  within (3 # 1000) exact (half_product 1167) /\
  ObstacleAvoiding.distance (ObstacleAvoiding.Ultrasonic exact 1167 obstacle_start) < 20 /\
  motor_output (ObstacleAvoiding.hw (ObstacleAvoiding.loop exact 1167 obstacle_start))
  = table Right.
Proof.
  assert (H0 : 0 <= 1167) by lia.
  assert (H1 : within (3 # 1000) exact (half_product 1167)) by (vm_compute; discriminate).
  split; [exact H0 |]. split; [exact H1 |].
  destruct (obstacle_threshold_in_microseconds exact 1167 obstacle_start H0 H1)
    as [Hiff Hout].
  split; [apply Hiff; lia | exact Hout].
Defined.

Lemma cross_lt x y a b d e :
  0 < d -> 0 < e -> a * e <= b * d -> d * x <= a -> b < e * y -> x < y.
Proof.
  intros Hd He H Hx Hy.
  destruct (Z_lt_ge_dec x y) as [L | G]; [exact L | exfalso].
  assert (d * y <= d * x) by (apply Z.mul_le_mono_nonneg_l; lia).
  assert (b * d < e * y * d) by (apply Z.mul_lt_mono_pos_r; lia).
  assert (d * y * e <= a * e) by (apply Z.mul_le_mono_nonneg_r; lia).
  lia.
Qed.

Lemma cross_lt' x y a b d e :
  0 < d -> 0 < e -> a * e <= b * d -> d * x < a -> b <= e * y -> x < y.
Proof.
  intros Hd He H Hx Hy.
  destruct (Z_lt_ge_dec x y) as [L | G]; [exact L | exfalso].
  assert (d * y <= d * x) by (apply Z.mul_le_mono_nonneg_l; lia).
  assert (b * d <= e * y * d) by (apply Z.mul_le_mono_nonneg_r; lia).
  assert (d * y * e < a * e) by (apply Z.mul_lt_mono_pos_r; lia).
  lia.
Qed.

(** Dropping the fraction keeps the order. *)
Lemma to_long_mono q1 q2 : (q1 <= q2)%Q -> to_long q1 <= to_long q2.
Proof.
  destruct q1 as [a d], q2 as [b e]. unfold Qle, to_long; cbn. intros H.
  destruct (quot_pos_facts a (Zpos d) ltac:(lia)) as [Pa Na].
  destruct (quot_pos_facts b (Zpos e) ltac:(lia)) as [Pb Nb].
  destruct (Z_le_gt_dec 0 a) as [Ha | Ha]; destruct (Z_le_gt_dec 0 b) as [Hb | Hb].
  - specialize (Pa Ha). specialize (Pb Hb).
    enough (a ÷ Zpos d < b ÷ Zpos e + 1) by lia.
    apply (cross_lt _ _ a b (Zpos d) (Zpos e)); lia.
  - exfalso. nia.
  - specialize (Na ltac:(lia)). specialize (Pb Hb).
    assert (a ÷ Zpos d <= 0) by nia. assert (0 <= b ÷ Zpos e) by nia. lia.
  - specialize (Na ltac:(lia)). specialize (Nb ltac:(lia)).
    enough (a ÷ Zpos d - 1 < b ÷ Zpos e) by lia.
    apply (cross_lt' _ _ a b (Zpos d) (Zpos e)); lia.
Qed.

Lemma half_product_mono p1 p2 :
  ldiv p1 2 <= ldiv p2 2 -> (half_product p1 <= half_product p2)%Q.
Proof.
  intros H. unfold half_product, speed_of_sound_cm_per_us.
  assert (inject_Z (ldiv p1 2) <= inject_Z (ldiv p2 2))%Q by (rewrite <- Zle_Qle; lia).
  lra.
Qed.

Lemma exact_monotone : monotone exact.
Proof. intros a b H. exact H. Qed.

(** X8.  Under a rounding that keeps the order, the computed distance
    never decreases when the echo time grows; so when an echo triggers the
    avoidance sequence, every shorter echo triggers it too. *)
Theorem obstacle_distance_monotone :
  forall fl p1 p2 s1 s2,
    monotone fl ->
    p1 <= p2 ->
    ObstacleAvoiding.distance (ObstacleAvoiding.Ultrasonic fl p1 s1)
    <= ObstacleAvoiding.distance (ObstacleAvoiding.Ultrasonic fl p2 s2) /\
    (ObstacleAvoiding.distance (ObstacleAvoiding.Ultrasonic fl p2 s2) < 20 ->
     motor_output (ObstacleAvoiding.hw (ObstacleAvoiding.loop fl p1 s1)) = table Right).
Proof.
  intros fl p1 p2 s1 s2 Hfl Hp.
  assert (Hd : ObstacleAvoiding.distance (ObstacleAvoiding.Ultrasonic fl p1 s1)
               <= ObstacleAvoiding.distance (ObstacleAvoiding.Ultrasonic fl p2 s2)).
  { rewrite !obstacle_distance. apply to_long_mono. apply Hfl.
    apply half_product_mono. unfold ldiv. apply Z.quot_le_mono; lia. }
  split; [exact Hd |].
  intros H. apply obstacle_near_output. lia.
Qed.

Lemma obstacle_distance_monotone_witness :
  monotone exact /\
  500 <= 1000 /\
  ObstacleAvoiding.distance (ObstacleAvoiding.Ultrasonic exact 500 obstacle_start)
  <= ObstacleAvoiding.distance (ObstacleAvoiding.Ultrasonic exact 1000 obstacle_start).
Proof.
  assert (H : 500 <= 1000) by lia.
  split; [exact exact_monotone |]. split; [exact H |].
  exact (proj1 (obstacle_distance_monotone exact 500 1000 obstacle_start obstacle_start
                  exact_monotone H)).
Defined.

(** ** The parking buzzer *)




(** ** Pin modes over a run of the Obstacle Avoiding sketch *)

Lemma obstacle_loop_log fl pulse s :
  exists es,
    log (ObstacleAvoiding.hw (ObstacleAvoiding.loop fl pulse s))
    = log (ObstacleAvoiding.hw s) ++ es /\
    List.filter is_pin_mode es = [] /\
    In (EDigitalWrite ObstacleAvoiding.trig HIGH) es.
Proof.
  destruct (Z_lt_ge_dec
              (ObstacleAvoiding.distance (ObstacleAvoiding.Ultrasonic fl pulse s)) 20)
    as [L | G].
  - rewrite (obstacle_loop_near fl pulse s L).
    unfold ObstacleAvoiding.Ultrasonic; cbn [ObstacleAvoiding.hw].
    autounfold with car. read_log.
    eexists. split; [reflexivity |]. split; [reflexivity |].
    right; right; left; reflexivity.
  - rewrite (obstacle_loop_far fl pulse s ltac:(lia)).
    unfold ObstacleAvoiding.Ultrasonic; cbn [ObstacleAvoiding.hw].
    autounfold with car. read_log.
    eexists. split; [reflexivity |]. split; [reflexivity |].
    right; right; left; reflexivity.
Qed.

Lemma obstacle_run_snoc fl pulses p :
  obstacle_run fl (pulses ++ [p])
  = ObstacleAvoiding.loop fl p (obstacle_run fl pulses).
Proof. unfold obstacle_run. rewrite fold_left_app. reflexivity. Qed.

(** X10.  Over any run of the Obstacle Avoiding sketch the only pin-mode
    calls are those of [setup]: OUTPUT for the pins 5 to 11 and INPUT for
    pin 4.  The trig pin (3) is never given a mode, although every loop
    iteration writes it. *)
Theorem obstacle_run_pin_modes :
  forall fl pulses,
    List.filter is_pin_mode (log (ObstacleAvoiding.hw (obstacle_run fl pulses)))
    = [EPinMode 5 OUTPUT; EPinMode 6 OUTPUT; EPinMode 7 OUTPUT; EPinMode 8 OUTPUT;
       EPinMode 9 OUTPUT; EPinMode 10 OUTPUT; EPinMode 11 OUTPUT; EPinMode 4 INPUT] /\
    (forall m, ~ In (EPinMode ObstacleAvoiding.trig m)
                    (log (ObstacleAvoiding.hw (obstacle_run fl pulses)))) /\
    (forall p, In (EDigitalWrite ObstacleAvoiding.trig HIGH)
                  (log (ObstacleAvoiding.hw (obstacle_run fl (pulses ++ [p]))))).
Proof.
  intros fl pulses.
  assert (Hmodes :
            List.filter is_pin_mode (log (ObstacleAvoiding.hw (obstacle_run fl pulses)))
            = [EPinMode 5 OUTPUT; EPinMode 6 OUTPUT; EPinMode 7 OUTPUT; EPinMode 8 OUTPUT;
               EPinMode 9 OUTPUT; EPinMode 10 OUTPUT; EPinMode 11 OUTPUT; EPinMode 4 INPUT]).
  { induction pulses as [| p pulses IH] using rev_ind.
    - reflexivity.
    - rewrite obstacle_run_snoc.
      destruct (obstacle_loop_log fl p (obstacle_run fl pulses)) as (es & E & Hf & _).
      rewrite E, List.filter_app, Hf, app_nil_r. exact IH. }
  split; [exact Hmodes |]. split.
  - intros m Hin.
    assert (Hin' : In (EPinMode ObstacleAvoiding.trig m)
                      (List.filter is_pin_mode
                         (log (ObstacleAvoiding.hw (obstacle_run fl pulses)))))
      by (apply List.filter_In; split; [exact Hin | reflexivity]).
    rewrite Hmodes in Hin'. cbn in Hin'.
    repeat (destruct Hin' as [Hin' | Hin']; [discriminate Hin' |]). exact Hin'.
  - intros p. rewrite obstacle_run_snoc.
    destruct (obstacle_loop_log fl p (obstacle_run fl pulses)) as (es & E & _ & Hw).
    rewrite E. apply in_or_app. right. exact Hw.
Qed.

(** ** The Bluetooth buffer *)

Lemma bluetooth_loop_empty s :
  BluetoothControlled.rx s = [] -> BluetoothControlled.loop s = s.
Proof. intros E. unfold BluetoothControlled.loop. rewrite E. reflexivity. Qed.

Lemma bluetooth_iterate :
  forall n s,
    (length (BluetoothControlled.rx s) <= n)%nat ->
    BluetoothControlled.rx (Nat.iter n BluetoothControlled.loop s) = [] /\
    BluetoothControlled.hw (Nat.iter n BluetoothControlled.loop s)
    = fold_left (fun b c => BluetoothControlled.switch_Reading (to_char c) b)
                (BluetoothControlled.rx s) (BluetoothControlled.hw s).
Proof.
  induction n as [| n IH]; intros s Hlen.
  - destruct (BluetoothControlled.rx s) as [| c rest] eqn:E; [| cbn in Hlen; lia].
    cbn. rewrite E. split; reflexivity.
  - rewrite Nat.iter_succ_r.
    destruct (BluetoothControlled.rx s) as [| c rest] eqn:E.
    + rewrite (bluetooth_loop_empty s E).
      destruct (IH s ltac:(rewrite E; cbn; lia)) as [H1 H2].
      rewrite E in H2. split; [exact H1 | exact H2].
    + rewrite (bluetooth_loop_byte s c rest E).
      cbn in Hlen.
      destruct (IH (BluetoothControlled.State
                      (BluetoothControlled.switch_Reading (to_char c)
                                                          (BluetoothControlled.hw s))
                      rest (to_char c))
                   ltac:(cbn; lia)) as [H1 H2].
      split; [exact H1 | exact H2].
Qed.

(** X11.  Iterating the Bluetooth loop drains the receive buffer one byte
    per iteration, in order: after at least as many iterations as bytes
    were waiting the buffer is empty and the board is the one obtained by
    dispatching the bytes from first to last; iterations on an empty
    buffer change nothing. *)
Theorem bluetooth_drains_buffer :
  forall n s,
    (length (BluetoothControlled.rx s) <= n)%nat ->
    BluetoothControlled.rx (Nat.iter n BluetoothControlled.loop s) = [] /\
    BluetoothControlled.hw (Nat.iter n BluetoothControlled.loop s)
    = fold_left (fun b c => BluetoothControlled.switch_Reading (to_char c) b)
                (BluetoothControlled.rx s) (BluetoothControlled.hw s).
Proof. exact bluetooth_iterate. Qed.

Lemma bluetooth_drains_buffer_witness :
  (length (BluetoothControlled.rx remote_FZS) <= 5)%nat /\
  BluetoothControlled.rx (Nat.iter 5 BluetoothControlled.loop remote_FZS) = [].
Proof.
  assert (H : (length (BluetoothControlled.rx remote_FZS) <= 5)%nat) by (cbn; lia).
  split; [exact H |].
  exact (proj1 (bluetooth_drains_buffer 5 remote_FZS H)).
Defined.

Lemma switch_command c m b :
  command_of_byte c = Some m ->
  BluetoothControlled.switch_Reading (to_char c) b = actuator SkBluetoothControlled m b.
Proof.
  unfold command_of_byte. intros H.
  destruct (c =? chr "F") eqn:EF;
    [apply Z.eqb_eq in EF; subst c; injection H as <-; reflexivity |].
  destruct (c =? chr "B") eqn:EB;
    [apply Z.eqb_eq in EB; subst c; injection H as <-; reflexivity |].
  destruct (c =? chr "R") eqn:ER;
    [apply Z.eqb_eq in ER; subst c; injection H as <-; reflexivity |].
  destruct (c =? chr "L") eqn:EL;
    [apply Z.eqb_eq in EL; subst c; injection H as <-; reflexivity |].
  destruct (c =? chr "S") eqn:ES;
    [apply Z.eqb_eq in ES; subst c; injection H as <-; reflexivity |].
  discriminate H.
Qed.

Lemma switch_unrecognised j b :
  0 <= j < 256 -> command_of_byte j = None ->
  BluetoothControlled.switch_Reading (to_char j) b = b.
Proof.
  unfold command_of_byte. intros Hj H.
  destruct (j =? chr "F") eqn:EF; [discriminate H |].
  destruct (j =? chr "B") eqn:EB; [discriminate H |].
  destruct (j =? chr "R") eqn:ER; [discriminate H |].
  destruct (j =? chr "L") eqn:EL; [discriminate H |].
  destruct (j =? chr "S") eqn:ES; [discriminate H |].
  apply Z.eqb_neq in EF, EB, ER, EL, ES.
  destruct (Z_lt_ge_dec j 128) as [Hlo | Hhi].
  - rewrite to_char_byte by lia. apply switch_Reading_unmatched; assumption.
  - pose proof (to_char_high j ltac:(lia)) as Hneg.
    apply switch_Reading_unmatched; vm_compute chr; lia.
Qed.

Lemma fold_unrecognised junk b :
  Forall (fun j => 0 <= j < 256 /\ command_of_byte j = None) junk ->
  fold_left (fun b c => BluetoothControlled.switch_Reading (to_char c) b) junk b = b.
Proof.
  induction junk as [| j junk IH]; intros H; cbn [fold_left].
  - reflexivity.
  - apply Forall_cons_1 in H. destruct H as [[Hj Hn] Hrest].
    rewrite (switch_unrecognised j b Hj Hn). apply IH. exact Hrest.
Qed.

(** X12.  The last recognised command wins: when the buffer holds any
    bytes, then a command byte, then only bytes 0..255 that are no
    command, draining the buffer leaves the motor output at the table row
    of that command. *)
Theorem bluetooth_last_command_wins :
  forall s pre c junk m,
    BluetoothControlled.rx s = pre ++ c :: junk ->
    command_of_byte c = Some m ->
    Forall (fun j => 0 <= j < 256 /\ command_of_byte j = None) junk ->
    motor_output
      (BluetoothControlled.hw
         (Nat.iter (length (BluetoothControlled.rx s)) BluetoothControlled.loop s))
    = table m.
Proof.
  intros s pre c junk m E Hc Hjunk.
  destruct (bluetooth_iterate (length (BluetoothControlled.rx s)) s ltac:(lia))
    as [_ Hhw].
  rewrite Hhw, E, fold_left_app. cbn [fold_left].
  rewrite (switch_command c m _ Hc).
  remember (fold_left
              (fun b c0 => BluetoothControlled.switch_Reading (to_char c0) b)
              pre (BluetoothControlled.hw s)) as b0 eqn:Eb0. clear Eb0.
  rewrite (fold_unrecognised junk _ Hjunk).
  apply full_write_output. discriminate.
Qed.

Lemma bluetooth_last_command_wins_witness :
  BluetoothControlled.rx remote_FZS = [chr "F"; chr "Z"] ++ chr "S" :: [] /\
  command_of_byte (chr "S") = Some Stop /\
  motor_output
    (BluetoothControlled.hw
       (Nat.iter (length (BluetoothControlled.rx remote_FZS))
                 BluetoothControlled.loop remote_FZS))
  = table Stop.
Proof.
  assert (H1 : BluetoothControlled.rx remote_FZS = [chr "F"; chr "Z"] ++ chr "S" :: [])
    by reflexivity.
  assert (H2 : command_of_byte (chr "S") = Some Stop) by reflexivity.
  split; [exact H1 |]. split; [exact H2 |].
  exact (bluetooth_last_command_wins remote_FZS [chr "F"; chr "Z"] (chr "S") [] Stop
           H1 H2 (List.Forall_nil _)).
Defined.

(** ** The LED/LCD toggle over time *)

Lemma ledlcd_loop_other env s :
  env LedLcd.button = true -> LedLcd.counter s <> 0 -> LedLcd.counter s <> 1 ->
  LedLcd.loop env s
  = LedLcd.State
      ((digitalWrite LedLcd.Red_led 0 ;;; digitalWrite LedLcd.Green_led 0 ;;;
        lcd_clear) (LedLcd.hw s))
      1 (LedLcd.counter s).
Proof.
  intros Hb H0 H1. unfold LedLcd.loop, digitalRead. rewrite Hb.
  rewrite (proj2 (Z.eqb_neq _ _) H0), (proj2 (Z.eqb_neq _ _) H1). reflexivity.
Qed.

(** X13.  Whatever the state and the input, after a loop iteration of the
    LED/LCD sketch the two LEDs are never both on: both LED pins have been
    written, to (1,0), (0,1) or (0,0). *)
Theorem ledlcd_never_both_on :
  forall env s,
    let red := pin_drive (LedLcd.hw (LedLcd.loop env s)) LedLcd.Red_led in
    let green := pin_drive (LedLcd.hw (LedLcd.loop env s)) LedLcd.Green_led in
    (red = Level 1 /\ green = Level 0) \/
    (red = Level 0 /\ green = Level 1) \/
    (red = Level 0 /\ green = Level 0).
Proof.
  intros env s red green. subst red green.
  destruct (env LedLcd.button) eqn:Hb.
  - destruct (Z.eq_dec (LedLcd.counter s) 0) as [E0 | N0].
    + left. rewrite (ledlcd_loop_red env s Hb E0). cbn [LedLcd.hw].
      unfold LedLcd.Red_led, LedLcd.Green_led, lcd_print, delay.
      split; read_pins; reflexivity.
    + destruct (Z.eq_dec (LedLcd.counter s) 1) as [E1 | N1].
      * right; left. rewrite (ledlcd_loop_green env s Hb E1). cbn [LedLcd.hw].
        unfold LedLcd.Red_led, LedLcd.Green_led, lcd_print, delay.
        split; read_pins; reflexivity.
      * right; right. rewrite (ledlcd_loop_other env s Hb N0 N1). cbn [LedLcd.hw].
        unfold LedLcd.Red_led, LedLcd.Green_led, lcd_clear.
        split; read_pins; reflexivity.
  - right; right. rewrite (ledlcd_loop_released env s Hb). cbn [LedLcd.hw].
    unfold LedLcd.Red_led, LedLcd.Green_led, lcd_clear.
    split; read_pins; reflexivity.
Qed.

Lemma ledlcd_counter_step env s :
  LedLcd.counter s = 0 \/ LedLcd.counter s = 1 ->
  LedLcd.counter (LedLcd.loop env s)
  = (LedLcd.counter s + Z.b2z (env LedLcd.button)) mod 2.
Proof.
  intros Hc. destruct (env LedLcd.button) eqn:Hb.
  - destruct Hc as [E | E].
    + rewrite (ledlcd_loop_red env s Hb E), E. reflexivity.
    + rewrite (ledlcd_loop_green env s Hb E), E. reflexivity.
  - rewrite (ledlcd_loop_released env s Hb). cbn [LedLcd.counter Z.b2z].
    destruct Hc as [E | E]; rewrite E; reflexivity.
Qed.

Lemma presses_cons env envs :
  presses (env :: envs) = Z.b2z (env LedLcd.button) + presses envs.
Proof.
  unfold presses. cbn [List.filter].
  destruct (env LedLcd.button); cbn [length Z.b2z]; lia.
Qed.

(** X14.  The sketch detects no edge of the button: started with
    [counter] 0 or 1, after any sequence of loop iterations [counter] is
    its start value plus the number of iterations that read the button
    pressed, modulo 2; it toggles in every such iteration, also while the
    button is simply held, and never leaves 0 and 1. *)
Theorem ledlcd_counter_parity :
  forall envs s,
    LedLcd.counter s = 0 \/ LedLcd.counter s = 1 ->
    LedLcd.counter (ledlcd_run envs s) = (LedLcd.counter s + presses envs) mod 2.
Proof.
  induction envs as [| env envs IH]; intros s Hc.
  - unfold ledlcd_run, presses. cbn.
    destruct Hc as [E | E]; rewrite E; reflexivity.
  - change (ledlcd_run (env :: envs) s) with (ledlcd_run envs (LedLcd.loop env s)).
    rewrite (IH _ (ledlcd_counter_invariant env s Hc)).
    rewrite (ledlcd_counter_step env s Hc), presses_cons.
    rewrite Z.add_mod_idemp_l by lia. f_equal. lia.
Qed.

Lemma ledlcd_counter_parity_witness :
  (LedLcd.counter LedLcd.initial = 0 \/ LedLcd.counter LedLcd.initial = 1) /\
  LedLcd.counter (ledlcd_run [pressed; pressed; released; pressed] LedLcd.initial) = 1.
Proof.
  assert (H : LedLcd.counter LedLcd.initial = 0 \/ LedLcd.counter LedLcd.initial = 1)
    by (left; reflexivity).
  split; [exact H |].
  exact (ledlcd_counter_parity [pressed; pressed; released; pressed] LedLcd.initial H).
Defined.

(** ** The line follower *)

Lemma line_follower_loop_hw env s :
  LineFollower.hw (LineFollower.loop env s)
  = actuator SkLineFollower
      (match env LineFollower.sensorL, env LineFollower.sensorR with
       | false, false => Forward
       | false, true => Right
       | true, false => Left
       | true, true => Stop
       end) (LineFollower.hw s).
Proof.
  unfold LineFollower.loop, digitalRead.
  destruct (env LineFollower.sensorL), (env LineFollower.sensorR); reflexivity.
Qed.

(** X15.  The line follower never reverses and never idles: whatever the
    sensors read, an iteration makes exactly six writes, and the motor
    output it leaves is never the Backward row. *)
Theorem line_follower_never_reverses :
  forall env s,
    motor_output (LineFollower.hw (LineFollower.loop env s)) <> table Backward /\
    length (log (LineFollower.hw (LineFollower.loop env s)))
    = (length (log (LineFollower.hw s)) + 6)%nat.
Proof.
  intros env s. rewrite line_follower_loop_hw. split.
  - rewrite full_write_output by discriminate.
    destruct (env LineFollower.sensorL), (env LineFollower.sensorR); discriminate.
  - destruct (env LineFollower.sensorL), (env LineFollower.sensorR);
      unfold actuator; autounfold with car; read_log;
      rewrite length_app; reflexivity.
Qed.
